(** * Lighthouse user flows: the flow session and the audit pipeline

    A shallow embedding of the user-flow module: the [UserFlow] class (the
    flow session with its two "in progress" slots and the two-phase
    navigation handshake) and the standalone [auditGatherSteps] reducer.

    The gatherers, the config initialiser and the audit runner are
    collaborators of the module.  An asynchronous function is embedded as a
    [Task]: a tree whose [Await] nodes are the calls to collaborators, so the
    arguments of every call are part of the program, and [exec] runs a task
    against an environment that answers the calls.

    The last part embeds the network-server-latency audit, whose numbers
    are the binary64 floats of the platform. *)

From Stdlib Require Import Ascii String ZArith Lia Floats Sorted.
From stdpp Require Import base option list gmap strings.

Local Open Scope string_scope.

(** ** Data model *)

(** The discriminator [gatherMode]: ['navigation'], ['timespan'] or
    ['snapshot']. *)
Inductive GatherMode := navigationMode | timespanMode | snapshotMode.

#[global] Instance GatherMode_eq_dec : EqDecision GatherMode.
Proof. solve_decision. Defined.

(** [LH.UserFlow.StepFlags]: every flag is optional; a missing field and a
    field holding [undefined] are both [None]. *)
Record StepFlags := {
  name : option string;
  skipAboutBlank : option bool;
  disableStorageReset : option bool;
  otherFlags : list (string * string);
}.

(** Values the module only passes along. *)
Inductive Page := PageOf (target : string).
Inductive ConfigJson := ConfigJsonOf (source : string).
Inductive Config := ConfigOf (digest : string).
Inductive Lhr := LhrOf (digest : string).
Inductive Timespan := TimespanOf (session : string).

Record URLArtifact := { finalDisplayedUrl : string }.
Record GatherContextArtifact := { gatherMode : GatherMode }.

Record Artifacts := {
  URL : URLArtifact;
  GatherContext : GatherContextArtifact;
  otherArtifacts : list (string * string);
}.

Record RunnerOptions := {
  config : Config;
  computedCache : gmap string string;
}.

(** [LH.Gatherer.FRGatherResult] *)
Record GatherResult := {
  gr_artifacts : Artifacts;
  gr_runnerOptions : RunnerOptions;
}.

(** A gather step is a JS object: [ref] is its identity, the key under which
    the [WeakMap] of runner options files it. *)
Record GatherStep := {
  ref : nat;
  artifacts : Artifacts;
  stepFlags : option StepFlags;
}.

(** What [Runner.audit] resolves to, when it resolves to something. *)
Record RunnerResult := { lhr : Lhr }.

Record FlowStep := { fs_lhr : Lhr; fs_name : string }.
Record FlowResult := { steps : list FlowStep; fr_name : string }.

(** [LH.UserFlow.Options] *)
Record Options := {
  opt_name : option string;
  opt_config : option ConfigJson;
}.

(** The second argument of [auditGatherSteps]. *)
Record AuditOptions := {
  ao_name : option string;
  ao_config : option ConfigJson;
  gatherStepRunnerOptions : option (gmap nat RunnerOptions);
}.

(** [{continueAndAwaitResult}]: the closure holds the promise of the
    [navigate()] call it was built for, here by its address. *)
Record NavigationHandle := { continueAndAwaitResult : nat }.

Record TimespanHandle := {
  ts_timespan : Timespan;
  ts_stepFlags : option StepFlags;
}.

Record UserFlow := {
  _page : Page;
  _options : option Options;
  _gatherSteps : list GatherStep;
  _gatherStepRunnerOptions : gmap nat RunnerOptions;
  currentNavigation : option NavigationHandle;
  currentTimespan : option TimespanHandle;
}.

(** ** Errors *)

Inductive Error :=
| Error_ (message : string)      (* [new Error(message)], thrown by this file *)
| TypeError_ (input : string)    (* [new URL(input)] on an unparsable input *)
| GatherFailure (reason : string). (* a collaborator's rejection *)

#[global] Instance Error_eq_dec : EqDecision Error.
Proof. solve_decision. Defined.

Definition TimespanInProgress := Error_ "Timespan already in progress".
Definition NavigationInProgress := Error_ "Navigation already in progress".
Definition NoNavigationInProgress := Error_ "No navigation in progress".
Definition NoTimespanInProgress := Error_ "No timespan in progress".
Definition EmptyFlow := Error_ "Need at least one step before getting the result".

(** The errors of kind [InvalidFlowState]: the four precondition errors. *)
Definition InvalidFlowState (e : Error) : bool :=
  bool_decide (e ∈ [TimespanInProgress; NavigationInProgress;
                    NoNavigationInProgress; NoTimespanInProgress]).

(** ** Calls to collaborators *)

(** [LH.NavigationRequestor]: a URL, a caller's function, or the closure
    [() => new Promise(continueNavigation => completeSetup(continueNavigation))]
    that [startNavigation] builds. *)
Inductive Requestor :=
| RequestorUrl (url : string)
| RequestorFn (label : string)
| RequestorHandshake.

Inductive Call :=
| navigationGather (page : Page) (requestor : Requestor)
    (cfg : option ConfigJson) (flags : StepFlags)
| startTimespanGather (page : Page) (cfg : option ConfigJson)
    (flags : option StepFlags)
| endTimespanGather (t : Timespan)
| snapshotGather (page : Page) (cfg : option ConfigJson)
    (flags : option StepFlags)
| initializeConfig (mode : GatherMode) (configJson : option ConfigJson)
    (flags : option StepFlags)
| Runner_audit (a : Artifacts) (ro : RunnerOptions).

Definition Reply (c : Call) : Set :=
  match c with
  | navigationGather _ _ _ _ => GatherResult
  | startTimespanGather _ _ _ => Timespan
  | endTimespanGather _ => GatherResult
  | snapshotGather _ _ _ => GatherResult
  | initializeConfig _ _ _ => Config
  | Runner_audit _ _ => option RunnerResult
  end.

(** ** Tasks: asynchronous functions as trees of calls *)

Inductive Task (A : Type) : Type :=
| Ret (a : A)
| Throw (e : Error)
| ReadThis (k : UserFlow -> Task A)
| WriteThis (this : UserFlow) (k : Task A)
| Await (c : Call) (k : Reply c -> Task A).

Arguments Ret {A} a.
Arguments Throw {A} e.
Arguments ReadThis {A} k.
Arguments WriteThis {A} this k.
Arguments Await {A} c k.

Fixpoint Task_bind {A B : Type} (f : A -> Task B) (t : Task A) : Task B :=
  match t with
  | Ret a => f a
  | Throw e => Throw e
  | ReadThis k => ReadThis (fun this => Task_bind f (k this))
  | WriteThis this k => WriteThis this (Task_bind f k)
  | Await c k => Await c (fun r => Task_bind f (k r))
  end.

#[global] Instance Task_ret : MRet Task := fun A a => Ret a.
#[global] Instance Task_mbind : MBind Task := fun A B f t => Task_bind f t.

(** [await call]: the value on fulfilment; a rejection is thrown at the
    [await], which is what [exec] does with it. *)
Definition await (c : Call) : Task (Reply c) := Await c Ret.
Definition readThis : Task UserFlow := ReadThis Ret.
Definition update (f : UserFlow -> UserFlow) : Task unit :=
  ReadThis (fun this => WriteThis (f this) (Ret tt)).

(** How the environment settles the promise of a call. *)
Inductive Answer (X : Type) : Type :=
| Fulfils (x : X)
| Rejects (e : Error)
| NeverSettles.

Arguments Fulfils {X} x.
Arguments Rejects {X} e.
Arguments NeverSettles {X}.

(** The environment: its answer to the [n]-th call of a run. *)
Definition Env := nat -> forall c : Call, Answer (Reply c).

Inductive Event := Called (c : Call) (a : Answer (Reply c)).

(** How the promise of an asynchronous function ends, as its caller sees it. *)
Inductive Outcome (A : Type) : Type :=
| Resolved (a : A)
| Rejected (e : Error)
| Pending.

Arguments Resolved {A} a.
Arguments Rejected {A} e.
Arguments Pending {A}.

Record Run (A : Type) := {
  trace : list Event;
  final : UserFlow;
  outcome : Outcome A;
}.

Arguments trace {A} r.
Arguments final {A} r.
Arguments outcome {A} r.

Definition called {A} (ev : Event) (r : Run A) : Run A :=
  {| trace := ev :: trace r; final := final r; outcome := outcome r |}.

Fixpoint exec {A : Type} (t : Task A) (env : Env) (n : nat) (this : UserFlow)
  : Run A :=
  match t with
  | Ret a => {| trace := []; final := this; outcome := Resolved a |}
  | Throw e => {| trace := []; final := this; outcome := Rejected e |}
  | ReadThis k => exec (k this) env n this
  | WriteThis this' k => exec k env n this'
  | Await c k =>
      match env n c with
      | Fulfils x => called (Called c (Fulfils x)) (exec (k x) env (S n) this)
      | Rejects e =>
          {| trace := [Called c (Rejects e)]; final := this;
             outcome := Rejected e |}
      | NeverSettles =>
          {| trace := [Called c NeverSettles]; final := this;
             outcome := Pending |}
      end
  end.

(** ** The flow session *)

(** A JS object in a condition: [undefined] is falsy, an object is truthy. *)
Definition truthy {A : Type} (o : option A) : bool :=
  match o with Some _ => true | None => false end.

(** [new UserFlow(page, options)] *)
Definition new_UserFlow (page : Page) (options : option Options) : UserFlow :=
  {| _page := page; _options := options; _gatherSteps := [];
     _gatherStepRunnerOptions := ∅;
     currentNavigation := None; currentTimespan := None |}.

(** [this.currentNavigation = v] and [this.currentTimespan = v] *)
Definition set_currentNavigation (v : option NavigationHandle)
  (this : UserFlow) : UserFlow :=
  {| _page := _page this; _options := _options this;
     _gatherSteps := _gatherSteps this;
     _gatherStepRunnerOptions := _gatherStepRunnerOptions this;
     currentNavigation := v; currentTimespan := currentTimespan this |}.

Definition set_currentTimespan (v : option TimespanHandle)
  (this : UserFlow) : UserFlow :=
  {| _page := _page this; _options := _options this;
     _gatherSteps := _gatherSteps this;
     _gatherStepRunnerOptions := _gatherStepRunnerOptions this;
     currentNavigation := currentNavigation this; currentTimespan := v |}.

(** [{...stepFlags}] *)
Definition spread (stepFlags : option StepFlags) : StepFlags :=
  match stepFlags with
  | Some f => f
  | None => {| name := None; skipAboutBlank := None;
               disableStorageReset := None; otherFlags := [] |}
  end.

Definition set_skipAboutBlank (v : bool) (f : StepFlags) : StepFlags :=
  {| name := name f; skipAboutBlank := Some v;
     disableStorageReset := disableStorageReset f;
     otherFlags := otherFlags f |}.

Definition set_disableStorageReset (v : bool) (f : StepFlags) : StepFlags :=
  {| name := name f; skipAboutBlank := skipAboutBlank f;
     disableStorageReset := Some v;
     otherFlags := otherFlags f |}.

Definition isNavigationStep (step : GatherStep) : bool :=
  bool_decide (gatherMode (GatherContext (artifacts step)) = navigationMode).

Definition _getNextNavigationFlags (this : UserFlow)
  (stepFlags : option StepFlags) : StepFlags :=
  let newStepFlags := spread stepFlags in
  let newStepFlags :=
    match skipAboutBlank newStepFlags with
    | None => set_skipAboutBlank true newStepFlags
    | Some _ => newStepFlags
    end in
  let isSubsequentNavigation := existsb isNavigationStep (_gatherSteps this) in
  if isSubsequentNavigation then
    match disableStorageReset newStepFlags with
    | None => set_disableStorageReset true newStepFlags
    | Some _ => newStepFlags
    end
  else newStepFlags.

(** The step object is allocated here; its identity is its insertion index,
    fresh because steps are only ever pushed. *)
Definition _addGatherStep (gatherResult : GatherResult)
  (stepFlags : option StepFlags) (this : UserFlow) : UserFlow :=
  let gatherStep :=
    {| ref := length (_gatherSteps this);
       artifacts := gr_artifacts gatherResult;
       stepFlags := stepFlags |} in
  {| _page := _page this; _options := _options this;
     _gatherSteps := _gatherSteps this ++ [gatherStep];
     _gatherStepRunnerOptions :=
       <[ref gatherStep := gr_runnerOptions gatherResult]>
         (_gatherStepRunnerOptions this);
     currentNavigation := currentNavigation this;
     currentTimespan := currentTimespan this |}.

(** [this._options?.config] *)
Definition flowConfig (this : UserFlow) : option ConfigJson :=
  _options this ≫= opt_config.

Definition navigate (requestor : Requestor) (stepFlags : option StepFlags)
  : Task unit :=
  this ← readThis;
  if truthy (currentTimespan this) then Throw TimespanInProgress else
  if truthy (currentNavigation this) then Throw NavigationInProgress else
  let newStepFlags := _getNextNavigationFlags this stepFlags in
  gatherResult ← await (navigationGather (_page this) requestor
                          (flowConfig this) newStepFlags);
  update (_addGatherStep gatherResult (Some newStepFlags)).

Definition startTimespan (stepFlags : option StepFlags) : Task unit :=
  this ← readThis;
  if truthy (currentTimespan this) then Throw TimespanInProgress else
  if truthy (currentNavigation this) then Throw NavigationInProgress else
  t ← await (startTimespanGather (_page this) (flowConfig this) stepFlags);
  update (set_currentTimespan
            (Some {| ts_timespan := t; ts_stepFlags := stepFlags |})).

Definition endTimespan : Task unit :=
  this ← readThis;
  match currentTimespan this with
  | None => Throw NoTimespanInProgress
  | Some h =>
      if truthy (currentNavigation this) then Throw NavigationInProgress else
      gatherResult ← await (endTimespanGather (ts_timespan h));
      update (set_currentTimespan None);;
      update (_addGatherStep gatherResult (ts_stepFlags h))
  end.

Definition snapshot (stepFlags : option StepFlags) : Task unit :=
  this ← readThis;
  if truthy (currentTimespan this) then Throw TimespanInProgress else
  if truthy (currentNavigation this) then Throw NavigationInProgress else
  gatherResult ← await (snapshotGather (_page this) (flowConfig this)
                          stepFlags);
  update (_addGatherStep gatherResult stepFlags).

(** ** The navigation handshake *)

(** A task run up to its first [await]. *)
Inductive Paused (A : Type) : Type :=
| Returned (a : A)
| Threw (e : Error)
| Awaiting (c : Call) (k : Reply c -> Task A).

Arguments Returned {A} a.
Arguments Threw {A} e.
Arguments Awaiting {A} c k.

Fixpoint runToAwait {A : Type} (t : Task A) (this : UserFlow)
  : UserFlow * Paused A :=
  match t with
  | Ret a => (this, Returned a)
  | Throw e => (this, Threw e)
  | ReadThis k => runToAwait (k this) this
  | WriteThis this' k => runToAwait k this'
  | Await c k => (this, Awaiting c k)
  end.

(** The state of a [navigationResultPromise], the promise of
    [this.navigate(...).catch(...)] that a handle's closure holds. *)
Inductive NavPromise :=
| NavAwaiting (c : Call) (k : Reply c -> Task unit)
| NavRejected (err : Error)
| NavFulfilled.

(** The session object together with the promises its handles refer to. *)
Record Runtime := {
  flow : UserFlow;
  promises : list NavPromise;
}.

(** What the navigation gatherer does with the requestor that
    [startNavigation] hands it: it calls it once its setup is done and waits
    for the promise it returns, or it settles (or hangs) without calling it.
    A gatherer that has called the requestor does not fulfil before that
    promise is resolved, that is before [continueNavigation()]. *)
Inductive Gatherer :=
| InvokesRequestor
| SettlesWithoutRequestor (env : Env).

(** The handler given to [.catch] on the promise of [navigate()]:
    [if (this.currentNavigation) throw err; else rejectDuringSetup(err);] *)
Inductive Routing := Rethrown | RejectedDuringSetup.

Definition catchHandler (this : UserFlow) : Routing :=
  if truthy (currentNavigation this) then Rethrown else RejectedDuringSetup.

(** [navigationResultPromise], the promise of [navigate(...).catch(...)],
    once [navigate()] has ended as [o] on the session [this]: the handler
    runs on a rejection, and the promise fulfils unless the handler
    rethrows.  While [navigate()] is suspended the promise is [suspended]. *)
Definition navigationResult (o : Outcome unit) (this : UserFlow)
  (suspended : NavPromise) : NavPromise :=
  match o with
  | Resolved _ => NavFulfilled
  | Rejected err =>
      match catchHandler this with
      | Rethrown => NavRejected err
      | RejectedDuringSetup => NavFulfilled
      end
  | Pending => suspended
  end.

(** [await navigationSetupPromise] when the requestor is never called:
    nothing calls [completeSetup], so the promise settles only if the
    handler calls [rejectDuringSetup(err)], and then the [await] throws. *)
Definition setupWithoutRequestor (o : Outcome unit) (this : UserFlow)
  : Outcome unit :=
  match o with
  | Rejected err =>
      match catchHandler this with
      | RejectedDuringSetup => Rejected err
      | Rethrown => Pending
      end
  | Resolved _ => Pending
  | Pending => Pending
  end.

Definition startNavigation (stepOptions : option StepFlags) (g : Gatherer)
  (rt : Runtime) : Runtime * Outcome unit :=
  (* this.navigate(requestor, stepOptions) runs up to its await *)
  match runToAwait (navigate RequestorHandshake stepOptions) (flow rt) with
  | (this1, Returned _) =>
      ({| flow := this1; promises := promises rt |},
       setupWithoutRequestor (Resolved tt) this1)
  | (this1, Threw err) =>
      ({| flow := this1; promises := promises rt |},
       setupWithoutRequestor (Rejected err) this1)
  | (this1, Awaiting c k) =>
      match g with
      | SettlesWithoutRequestor env =>
          let r := exec (Await c k) env 0 this1 in
          ({| flow := final r; promises := promises rt |},
           setupWithoutRequestor (outcome r) (final r))
      | InvokesRequestor =>
          (* completeSetup(continueNavigation): the await of
             navigationSetupPromise resumes,
             this.currentNavigation = {continueAndAwaitResult} *)
          let navigationResultPromise := length (promises rt) in
          ({| flow := set_currentNavigation
                        (Some {| continueAndAwaitResult :=
                                   navigationResultPromise |}) this1;
              promises := promises rt ++ [NavAwaiting c k] |},
           Resolved tt)
      end
  end.

(** [await navigationResultPromise; ... this.currentNavigation = undefined;]
    on a promise in state [state]: the assignment is reached only when the
    [await] returns. *)
Definition awaitResult (state : NavPromise) (rt : Runtime)
  : Runtime * Outcome unit :=
  match state with
  | NavFulfilled =>
      ({| flow := set_currentNavigation None (flow rt);
          promises := promises rt |}, Resolved tt)
  | NavRejected err => (rt, Rejected err)
  | NavAwaiting _ _ => (rt, Pending)
  end.

(** [endNavigation]: [env] is how the gatherer settles once
    [continueNavigation()] has released it.  A gatherer that gave up before
    the trigger rejects the same promise and changes nothing in between, so
    it is an [env] that rejects. *)
Definition endNavigation (env : Env) (rt : Runtime) : Runtime * Outcome unit :=
  if truthy (currentTimespan (flow rt)) then (rt, Rejected TimespanInProgress)
  else
    match currentNavigation (flow rt) with
    | None => (rt, Rejected NoNavigationInProgress)
    | Some h =>
        (* await this.currentNavigation.continueAndAwaitResult() *)
        let p := continueAndAwaitResult h in
        match promises rt !! p with
        | Some (NavAwaiting c k) =>
            (* continueNavigation(): the gatherer goes on, navigate() ends *)
            let r := exec (Await c k) env 0 (flow rt) in
            let state :=
              navigationResult (outcome r) (final r) (NavAwaiting c k) in
            awaitResult state
              {| flow := final r; promises := <[p := state]> (promises rt) |}
        | Some state => awaitResult state rt
        | None => (rt, Pending)
        end
    end.

(** ** Sessions driven by a caller that awaits every operation *)

Inductive Invocation :=
| call_navigate (requestor : Requestor) (stepFlags : option StepFlags)
    (env : Env)
| call_startNavigation (stepOptions : option StepFlags) (g : Gatherer)
| call_endNavigation (env : Env)
| call_startTimespan (stepFlags : option StepFlags) (env : Env)
| call_endTimespan (env : Env)
| call_snapshot (stepFlags : option StepFlags) (env : Env).

(** An operation that is one task, awaited by the caller. *)
Definition perform (t : Task unit) (env : Env) (rt : Runtime)
  : Runtime * Outcome unit :=
  let r := exec t env 0 (flow rt) in
  ({| flow := final r; promises := promises rt |}, outcome r).

Definition invoke (op : Invocation) (rt : Runtime) : Runtime * Outcome unit :=
  match op with
  | call_navigate requestor stepFlags env =>
      perform (navigate requestor stepFlags) env rt
  | call_startNavigation stepOptions g => startNavigation stepOptions g rt
  | call_endNavigation env => endNavigation env rt
  | call_startTimespan stepFlags env => perform (startTimespan stepFlags) env rt
  | call_endTimespan env => perform endTimespan env rt
  | call_snapshot stepFlags env => perform (snapshot stepFlags) env rt
  end.

(** The caller goes on only once the operation has settled. *)
Fixpoint runFlow (ops : list Invocation) (rt : Runtime) : Runtime :=
  match ops with
  | [] => rt
  | op :: rest =>
      match invoke op rt with
      | (rt', Pending) => rt'
      | (rt', _) => runFlow rest rt'
      end
  end.

Definition new_Runtime (page : Page) (options : option Options) : Runtime :=
  {| flow := new_UserFlow page options; promises := [] |}.

(** ** The audit pipeline *)

(** The fields of a WHATWG [URL] object. *)
Record ParsedURL := {
  protocol : string;
  hostname : string;
  port : string;
  pathname : string;
  search : string;
  hash : string;
}.

(** The platform's URL parser; [None] is the [TypeError] of [new URL]. *)
Class URLParser := parseURL : string -> option ParsedURL.

(** The double-quote character of the template literals. *)
Definition dquote : string := String (ascii_of_nat 34) EmptyString.

(** The left operand of [a || b] when it decides the result: a string that
    is neither [undefined] nor empty. *)
Definition truthyString (o : option string) : option string :=
  match o with
  | Some s => if decide (s = "") then None else Some s
  | None => None
  end.

(** The words of the default step name before the URL. *)
Definition modeLabel (mode : GatherMode) : string :=
  match mode with
  | navigationMode => "Navigation"
  | timespanMode => "Timespan"
  | snapshotMode => "Snapshot"
  end.

(** The same step without its name flag. *)
Definition withoutName (gatherStep : GatherStep) : GatherStep :=
  {| ref := ref gatherStep; artifacts := artifacts gatherStep;
     stepFlags :=
       (fun f => {| name := None; skipAboutBlank := skipAboutBlank f;
                    disableStorageReset := disableStorageReset f;
                    otherFlags := otherFlags f |}) <$> stepFlags gatherStep |}.

(** The options [createFlowResult] hands to [auditGatherSteps]. *)
Definition sessionAuditOptions (this : UserFlow) : AuditOptions :=
  {| ao_name := _options this ≫= opt_name;
     ao_config := flowConfig this;
     gatherStepRunnerOptions := Some (_gatherStepRunnerOptions this) |}.

Section AuditPipeline.
Context {parser : URLParser}.

Definition new_URL (input : string) : Task ParsedURL :=
  match parseURL input with
  | Some url => Ret url
  | None => Throw (TypeError_ input)
  end.

Definition shortenUrl (longUrl : string) : Task string :=
  url ← new_URL longUrl;
  Ret (hostname url +:+ pathname url).

Definition getDefaultStepName (a : Artifacts) : Task string :=
  shortUrl ← shortenUrl (finalDisplayedUrl (URL a));
  match gatherMode (GatherContext a) with
  | navigationMode => Ret ("Navigation report (" +:+ shortUrl +:+ ")")
  | timespanMode => Ret ("Timespan report (" +:+ shortUrl +:+ ")")
  | snapshotMode => Ret ("Snapshot report (" +:+ shortUrl +:+ ")")
  end.

(** [stepFlags?.name || getDefaultStepName(artifacts)] *)
Definition stepName (gatherStep : GatherStep) : Task string :=
  match truthyString (stepFlags gatherStep ≫= name) with
  | Some n => Ret n
  | None => getDefaultStepName (artifacts gatherStep)
  end.

(** [options.gatherStepRunnerOptions?.get(gatherStep)] *)
Definition recordedOptions (options : AuditOptions) (gatherStep : GatherStep)
  : option RunnerOptions :=
  gatherStepRunnerOptions options ≫= (fun registry => registry !! ref gatherStep).

(** The body of the loop of [auditGatherSteps]. *)
Definition auditStep (options : AuditOptions) (gatherStep : GatherStep)
  : Task FlowStep :=
  stepname ← stepName gatherStep;
  runnerOptions ←
    match recordedOptions options gatherStep with
    | Some recorded => Ret recorded
    | None =>
        let configJson := ao_config options in
        let mode := gatherMode (GatherContext (artifacts gatherStep)) in
        cfg ← await (initializeConfig mode configJson (stepFlags gatherStep));
        Ret {| config := cfg; computedCache := ∅ |}
    end;
  result ← await (Runner_audit (artifacts gatherStep) runnerOptions);
  match result with
  | None =>
      Throw (Error_ ("Step " +:+ dquote +:+ stepname +:+ dquote +:+
                     " did not return a result"))
  | Some res => Ret {| fs_lhr := lhr res; fs_name := stepname |}
  end.

Fixpoint auditLoop (options : AuditOptions) (gatherSteps : list GatherStep)
  (acc : list FlowStep) : Task (list FlowStep) :=
  match gatherSteps with
  | [] => Ret acc
  | gatherStep :: rest =>
      step ← auditStep options gatherStep;
      auditLoop options rest (acc ++ [step])
  end.

Definition auditGatherSteps (gatherSteps : list GatherStep)
  (options : AuditOptions) : Task FlowResult :=
  match gatherSteps with
  | [] => Throw EmptyFlow
  | first :: _ =>
      flowSteps ← auditLoop options gatherSteps [];
      url ← new_URL (finalDisplayedUrl (URL (artifacts first)));
      let flowName :=
        match truthyString (ao_name options) with
        | Some n => n
        | None => "User flow (" +:+ hostname url +:+ ")"
        end in
      Ret {| steps := flowSteps; fr_name := flowName |}
  end.

Definition createFlowResult : Task FlowResult :=
  this ← readThis;
  auditGatherSteps (_gatherSteps this) (sessionAuditOptions this).

(** The calls made for one step of a run that resolved, and what the run
    recorded for it. *)
Definition audited (options : AuditOptions) (gatherStep : GatherStep)
  (segment : list Event) (flowStep : FlowStep) : Prop :=
  stepName gatherStep = Ret (fs_name flowStep) /\
  exists res : RunnerResult,
    fs_lhr flowStep = lhr res /\
    match recordedOptions options gatherStep with
    | Some recorded =>
        segment =
          [Called (Runner_audit (artifacts gatherStep) recorded)
             (Fulfils (Some res))]
    | None =>
        exists cfg : Config,
          segment =
            [Called (initializeConfig
                       (gatherMode (GatherContext (artifacts gatherStep)))
                       (ao_config options) (stepFlags gatherStep))
               (Fulfils cfg);
             Called (Runner_audit (artifacts gatherStep)
                       {| config := cfg; computedCache := ∅ |})
               (Fulfils (Some res))]
    end.

End AuditPipeline.

(** A small stand-in for the platform's parser, for the worked examples: it
    reads [scheme://host[:port][/path][?query][#fragment]] and nothing
    else.  The theorems hold for every parser; only the examples run this
    one. *)

Fixpoint afterScheme (s : string) : option (string * string) :=
  match s with
  | String ":"%char (String "/"%char (String "/"%char rest)) =>
      Some (":", rest)
  | String ch s' =>
      match afterScheme s' with
      | Some (scheme, rest) => Some (String ch scheme, rest)
      | None => None
      end
  | EmptyString => None
  end.

(** The part of [s] before the first character in [stops], and the rest. *)
Fixpoint upTo (stops : list ascii) (s : string) : string * string :=
  match s with
  | EmptyString => ("", "")
  | String ch s' =>
      if bool_decide (ch ∈ stops) then ("", s)
      else let '(before, rest) := upTo stops s' in (String ch before, rest)
  end.

Definition sampleParseURL (input : string) : option ParsedURL :=
  match afterScheme input with
  | None => None
  | Some (scheme, rest) =>
      let '(authority, rest) := upTo ["/"; "?"; "#"]%char rest in
      let '(host, portPart) := upTo [":"]%char authority in
      let '(path, rest) := upTo ["?"; "#"]%char rest in
      let '(query, fragment) := upTo ["#"]%char rest in
      if decide (host = "") then None
      else Some {| protocol := scheme; hostname := host;
                   port := match portPart with
                           | String _ digits => digits
                           | EmptyString => ""
                           end;
                   pathname := if decide (path = "") then "/" else path;
                   search := query; hash := fragment |}
  end.

Definition sampleParser : URLParser := sampleParseURL.

(** ** Reading runs and sessions *)

(** The run of a task that throws [e] before any call. *)
Definition rejects_with {A : Type} (e : Error) (this : UserFlow) : Run A :=
  {| trace := []; final := this; outcome := Rejected e |}.

(** The run of [t ≫= f] from the run of [t] and the runs of [f]. *)
Definition andThen {A B : Type} (r : Run A) (next : A -> UserFlow -> Run B)
  : Run B :=
  match outcome r with
  | Resolved a =>
      let r' := next a (final r) in
      {| trace := trace r ++ trace r'; final := final r';
         outcome := outcome r' |}
  | Rejected e =>
      {| trace := trace r; final := final r; outcome := Rejected e |}
  | Pending => {| trace := trace r; final := final r; outcome := Pending |}
  end.

(** The runtime once [startNavigation] has installed its handle: the
    suspended [navigate()] call goes to the heap, its address to the slot. *)
Definition installed (stepOptions : option StepFlags) (rt : Runtime) : Runtime :=
  let this := flow rt in
  let newStepFlags := _getNextNavigationFlags this stepOptions in
  {| flow := set_currentNavigation
               (Some {| continueAndAwaitResult := length (promises rt) |}) this;
     promises := promises rt ++
       [NavAwaiting
          (navigationGather (_page this) RequestorHandshake (flowConfig this)
             newStepFlags)
          (fun gatherResult : GatherResult =>
             update (_addGatherStep gatherResult (Some newStepFlags)))] |}.

(** At most one of the two slots is set. *)
Definition exclusive (this : UserFlow) : Prop :=
  currentNavigation this = None ∨ currentTimespan this = None.

(** A promise in the heap belongs to a [navigate()] call: pending, it is
    that call suspended at its [await]. *)
Inductive from_navigate : NavPromise -> Prop :=
| from_navigate_awaiting page requestor cfg flags :
    from_navigate
      (NavAwaiting (navigationGather page requestor cfg flags)
         (fun gatherResult : GatherResult =>
            update (_addGatherStep gatherResult (Some flags))))
| from_navigate_rejected err : from_navigate (NavRejected err)
| from_navigate_fulfilled : from_navigate NavFulfilled.

(** What every runtime reached from a new session satisfies. *)
Record consistent (rt : Runtime) : Prop := {
  slots_exclusive : exclusive (flow rt);
  promises_from_navigate : Forall from_navigate (promises rt);
  handle_allocated :
    forall h, currentNavigation (flow rt) = Some h ->
              continueAndAwaitResult h < length (promises rt);
}.

(** Every recorded step is filed in the registry under its identity, which
    is its index in the list. *)
Definition registered (this : UserFlow) : Prop :=
  forall i step,
    _gatherSteps this !! i = Some step ->
    ref step = i /\ is_Some (_gatherStepRunnerOptions this !! i).

(** From [this] to [this']: the steps and the registry are the same, or one
    step was pushed and filed. *)
Definition grows (this this' : UserFlow) : Prop :=
  (_gatherSteps this' = _gatherSteps this /\
   _gatherStepRunnerOptions this' = _gatherStepRunnerOptions this) \/
  exists gatherResult flags,
    _gatherSteps this' =
      (_gatherSteps this ++
       [{| ref := length (_gatherSteps this);
           artifacts := gr_artifacts gatherResult;
           stepFlags := flags |}])%list /\
    _gatherStepRunnerOptions this' =
      <[length (_gatherSteps this) := gr_runnerOptions gatherResult]>
        (_gatherStepRunnerOptions this).

(** The operations the guards are there to turn away: an operation that
    starts or makes a step while either slot is in use, [endTimespan] during
    a navigation, [endNavigation] during a timespan. *)
Definition conflicting (op : Invocation) (this : UserFlow) : bool :=
  match op with
  | call_endTimespan _ => truthy (currentNavigation this)
  | call_endNavigation _ => truthy (currentTimespan this)
  | _ => truthy (currentNavigation this) || truthy (currentTimespan this)
  end.

(** [startNavigation] invoked while a handle is in the slot. *)
Definition startsBehindHandle (op : Invocation) (this : UserFlow) : bool :=
  match op with
  | call_startNavigation _ _ => truthy (currentNavigation this)
  | _ => false
  end.

Definition isEndTimespan (op : Invocation) : bool :=
  match op with call_endTimespan _ => true | _ => false end.

(** The outcomes the caller of [runFlow] sees, one per operation invoked. *)
Fixpoint outcomes (ops : list Invocation) (rt : Runtime)
  : list (Outcome unit) :=
  match ops with
  | [] => []
  | op :: rest =>
      match invoke op rt with
      | (_, Pending) => [Pending]
      | (rt', o) => o :: outcomes rest rt'
      end
  end.

(** * Worked data *)

Definition samplePage : Page := PageOf "tab".

Definition sampleArtifacts (mode : GatherMode) (url : string) : Artifacts :=
  {| URL := {| finalDisplayedUrl := url |};
     GatherContext := {| gatherMode := mode |};
     otherArtifacts := [] |}.

Definition sampleGatherResult (mode : GatherMode) (url : string)
  : GatherResult :=
  {| gr_artifacts := sampleArtifacts mode url;
     gr_runnerOptions :=
       {| config := ConfigOf "recorded"; computedCache := ∅ |} |}.

(** Every collaborator succeeds. *)
Definition obligingEnv : Env :=
  fun _ c =>
    match c return Answer (Reply c) with
    | navigationGather _ _ _ _ =>
        Fulfils (sampleGatherResult navigationMode "https://example.com/")
    | startTimespanGather _ _ _ => Fulfils (TimespanOf "capture")
    | endTimespanGather _ =>
        Fulfils (sampleGatherResult timespanMode "https://example.com/")
    | snapshotGather _ _ _ =>
        Fulfils (sampleGatherResult snapshotMode "https://example.com/")
    | initializeConfig _ _ _ => Fulfils (ConfigOf "rebuilt")
    | Runner_audit a _ =>
        Fulfils (Some {| lhr := LhrOf (finalDisplayedUrl (URL a)) |})
    end.

(** Every collaborator fails with [e]. *)
Definition failingEnv (e : Error) : Env := fun _ _ => Rejects e.

(** A session with one navigation step behind it. *)
Definition afterOneNavigation : Runtime :=
  runFlow [call_navigate (RequestorUrl "https://example.com/") None obligingEnv]
    (new_Runtime samplePage None).

(** A session with a timespan in progress. *)
Definition duringTimespan : Runtime :=
  runFlow [call_startTimespan None obligingEnv] (new_Runtime samplePage None).

(** Three steps on [example.com], none with a name flag. *)
Definition navigationStep : GatherStep :=
  {| ref := 0;
     artifacts := sampleArtifacts navigationMode "https://example.com/?utm=1#top";
     stepFlags := Some {| name := None; skipAboutBlank := Some true;
                          disableStorageReset := None; otherFlags := [] |} |}.

Definition timespanStep : GatherStep :=
  {| ref := 1;
     artifacts := sampleArtifacts timespanMode "https://example.com/";
     stepFlags := None |}.

Definition snapshotStep : GatherStep :=
  {| ref := 2;
     artifacts := sampleArtifacts snapshotMode "https://example.com/#cart";
     stepFlags := None |}.

Definition threeSteps : list GatherStep :=
  [navigationStep; timespanStep; snapshotStep].

(** The registry of a session that lost the options of the timespan step. *)
Definition registryWithoutTimespan : gmap nat RunnerOptions :=
  <[0 := {| config := ConfigOf "recorded"; computedCache := ∅ |}]>
    (<[2 := {| config := ConfigOf "recorded"; computedCache := ∅ |}]> ∅).

Definition optionsWithoutTimespan : AuditOptions :=
  {| ao_name := None; ao_config := Some (ConfigJsonOf "flow");
     gatherStepRunnerOptions := Some registryWithoutTimespan |}.

(** The same steps, the last one now with an empty name flag. *)
Definition stepsWithEmptyName : list GatherStep :=
  [{| ref := 0;
      artifacts := sampleArtifacts navigationMode "https://example.com/?utm=1#top";
      stepFlags := Some {| name := Some "Landing page";
                           skipAboutBlank := Some true;
                           disableStorageReset := None; otherFlags := [] |} |};
   {| ref := 2;
      artifacts := sampleArtifacts snapshotMode "https://example.com/#cart";
      stepFlags := Some {| name := Some ""; skipAboutBlank := None;
                           disableStorageReset := None; otherFlags := [] |} |}].

Definition optionsNamed (given : option string) : AuditOptions :=
  {| ao_name := given; ao_config := None; gatherStepRunnerOptions := None |}.

Definition sampleAudit (gatherSteps : list GatherStep) (options : AuditOptions)
  : Run FlowResult :=
  exec (@auditGatherSteps sampleParser gatherSteps options) obligingEnv 0
    (new_UserFlow samplePage None).

(** The step names of a run, when it resolved. *)
Definition resolvedNames (r : Run FlowResult) : option (list string) :=
  match outcome r with
  | Resolved result => Some (fs_name <$> steps result)
  | _ => None
  end.

(** * The rest of the module *)

(** ** The exports of a session *)

(** [LH.UserFlow.FlowArtifacts], what [createArtifactsJson] resolves to. *)
Record FlowArtifacts := {
  fa_gatherSteps : list GatherStep;
  fa_name : option string;
}.

Definition createArtifactsJson : Task FlowArtifacts :=
  this ← readThis;
  Ret {| fa_gatherSteps := _gatherSteps this;
         fa_name := _options this ≫= opt_name |}.

(** A step read back from its JSON: the same artifacts and flags in a new
    object, whose identity is any. *)
Definition sameContent (gatherStep revived : GatherStep) : Prop :=
  artifacts revived = artifacts gatherStep /\
  stepFlags revived = stepFlags gatherStep.

Section Exports.
Context {parser : URLParser}.

(** [generateReport]: the renderer, [ReportGenerator.generateFlowReportHtml],
    is a synchronous function from the flow result to the page. *)
Definition generateReport (generateFlowReportHtml : FlowResult -> string)
  : Task string :=
  flowResult ← createFlowResult;
  Ret (generateFlowReportHtml flowResult).

(** The message of [new Error(`Step "${name}" did not return a result`)]. *)
Definition stepDidNotReturn (stepname : string) : Error :=
  Error_ ("Step " +:+ dquote +:+ stepname +:+ dquote +:+
          " did not return a result").

(** The ways [auditGatherSteps] rejects, with the trace [tr] of the run. *)
Inductive auditFailure (gatherSteps : list GatherStep) (tr : list Event)
  (e : Error) : Prop :=
| fails_empty :
    gatherSteps = [] -> tr = [] -> e = EmptyFlow ->
    auditFailure gatherSteps tr e
| fails_on_url gatherStep :
    gatherStep ∈ gatherSteps ->
    parseURL (finalDisplayedUrl (URL (artifacts gatherStep))) = None ->
    e = TypeError_ (finalDisplayedUrl (URL (artifacts gatherStep))) ->
    auditFailure gatherSteps tr e
| fails_without_result gatherStep stepname ro :
    gatherStep ∈ gatherSteps ->
    stepName gatherStep = Ret stepname ->
    last tr = Some (Called (Runner_audit (artifacts gatherStep) ro)
                      (Fulfils None)) ->
    e = stepDidNotReturn stepname ->
    auditFailure gatherSteps tr e
| fails_in_collaborator c :
    last tr = Some (Called c (Rejects e)) ->
    auditFailure gatherSteps tr e.

End Exports.

(** ** Reading the calls of a run *)







(** The event is a call made for [gatherStep] by the loop of
    [auditGatherSteps]: the config of a step without recorded options, or
    the audit of the step's artifacts. *)
Definition stepEvent (options : AuditOptions) (gatherStep : GatherStep)
  (ev : Event) : Prop :=
  match ev with
  | Called (initializeConfig mode configJson flags) _ =>
      recordedOptions options gatherStep = None /\
      mode = gatherMode (GatherContext (artifacts gatherStep)) /\
      configJson = ao_config options /\
      flags = stepFlags gatherStep
  | Called (Runner_audit a ro) _ =>
      a = artifacts gatherStep /\
      match recordedOptions options gatherStep with
      | Some recorded => ro = recorded
      | None => computedCache ro = ∅
      end
  | Called _ _ => False
  end.

(** A task that neither reads nor writes the session. *)
Inductive stateless {A : Type} : Task A -> Prop :=
| stateless_ret a : stateless (Ret a)
| stateless_throw e : stateless (Throw e)
| stateless_await c k :
    (forall x, stateless (k x)) -> stateless (Await c k).

(** An audit made by [createFlowResult] with the options the session has on
    record for the step. *)
Definition auditWithRecorded (this : UserFlow) (ev : Event) : Prop :=
  match ev with
  | Called (Runner_audit a ro) _ =>
      exists gatherStep,
        gatherStep ∈ _gatherSteps this /\
        a = artifacts gatherStep /\
        _gatherStepRunnerOptions this !! ref gatherStep = Some ro
  | Called _ _ => False
  end.

(** ** Counting steps *)

(** The operations that push a step when they resolve. *)
Definition pushes (op : Invocation) : bool :=
  match op with
  | call_navigate _ _ _ | call_endNavigation _
  | call_endTimespan _ | call_snapshot _ _ => true
  | call_startNavigation _ _ | call_startTimespan _ _ => false
  end.

(** The handle in the slot holds a promise that has not fulfilled. *)
Definition handle_unfulfilled (rt : Runtime) : Prop :=
  forall h, currentNavigation (flow rt) = Some h ->
            exists state,
              promises rt !! continueAndAwaitResult h = Some state /\
              state <> NavFulfilled.


(** ** More worked data *)

(** A named step whose URL the platform does not parse. *)
Definition namedStepWithoutUrl : GatherStep :=
  {| ref := 0;
     artifacts := sampleArtifacts snapshotMode "not a url";
     stepFlags := Some {| name := Some "Checkout"; skipAboutBlank := None;
                          disableStorageReset := None; otherFlags := [] |} |}.

(** As [obligingEnv], but [Runner.audit] has no result for a timespan. *)
Definition envWithoutTimespanResult : Env :=
  fun n c =>
    match c as c' return Answer (Reply c') with
    | Runner_audit a ro =>
        if decide (gatherMode (GatherContext a) = timespanMode)
        then Fulfils None
        else obligingEnv n (Runner_audit a ro)
    | c' => obligingEnv n c'
    end.

(** The step of [afterOneNavigation], read back from its JSON. *)
Definition revivedNavigation : GatherStep :=
  {| ref := 7;
     artifacts := sampleArtifacts navigationMode "https://example.com/";
     stepFlags := Some {| name := None; skipAboutBlank := Some true;
                          disableStorageReset := None; otherFlags := [] |} |}.

(** A session with a navigation started and not ended. *)
Definition duringNavigation : Runtime :=
  runFlow [call_startNavigation None InvokesRequestor]
    (new_Runtime samplePage None).

(** * The network-server-latency audit *)

(** ** Numbers and arrays of the platform

    A JavaScript number is an IEEE 754 binary64 float, here [float]:
    [-], [/] and [<] are the primitive operations. *)

(** [Math.max] of two numbers (ECMA-262, 21.3.2.24): NaN when an argument is
    NaN, and [+0] counts as larger than [-0]. *)
Definition Math_max (value1 value2 : float) : float :=
  if is_nan value1 || is_nan value2 then nan
  else
    match classify value2, classify value1 with
    | PZero, NZero => value2
    | _, _ => if (value1 <? value2)%float then value2 else value1
    end.

(** [Array.prototype.sort(comparefn)].  The sort is stable, and [comparefn]
    puts [a] after [b] when [comparefn(a, b) > 0]; a NaN result is read as
    [+0].  For a consistent comparator this fixes the result, which is what
    the insertion below computes; for any other the order is left to the
    engine. *)
Fixpoint insertInOrder {A : Type} (comparefn : A -> A -> float) (a : A)
  (sorted : list A) : list A :=
  match sorted with
  | [] => [a]
  | b :: rest =>
      if (0 <? comparefn a b)%float
      then b :: insertInOrder comparefn a rest
      else a :: sorted
  end.

Definition Array_sort {A : Type} (comparefn : A -> A -> float)
  (items : list A) : list A :=
  foldr (insertInOrder comparefn) [] items.

(** ** The order of the numbers

    A number that is not NaN has a place in the order: the sign first, then
    the exponent and the mantissa. *)
Definition sortKey (f : spec_float) : Z * Z * Z :=
  match f with
  | S754_nan => (0, 0, 0)%Z
  | S754_zero _ => (0, 0, 0)%Z
  | S754_infinity true => (-2, 0, 0)%Z
  | S754_infinity false => (2, 0, 0)%Z
  | S754_finite true m e => (-1, - e, Z.neg m)%Z
  | S754_finite false m e => (1, e, Z.pos m)%Z
  end.

Definition keyLt (a b : Z * Z * Z) : Prop :=
  (a.1.1 < b.1.1 \/
   a.1.1 = b.1.1 /\ (a.1.2 < b.1.2 \/ a.1.2 = b.1.2 /\ a.2 < b.2))%Z.

Definition floatKey (x : float) : Z * Z * Z := sortKey (Prim2SF x).

(** A number that is NaN or has the sign [s]. *)
Inductive signed (s : bool) : spec_float -> Prop :=
| signed_nan : signed s S754_nan
| signed_zero : signed s (S754_zero s)
| signed_infinity : signed s (S754_infinity s)
| signed_finite m e : signed s (S754_finite s m e).

(** The number one. *)
Definition SFone : spec_float := S754_finite false 4503599627370496 (-52).

Module NetworkServerLatency.

(** ** Data of the audit *)

(** Opaque values: a devtools log, a network record, the audit context. *)
Inductive DevtoolsLog := DevtoolsLogOf (id : string).
Inductive NetworkRequest := NetworkRequestOf (url : string).
Inductive AuditContext := AuditContextOf (id : string).

(** The artifact the audit requires: [devtoolsLogs], by pass name. *)
Record Artifacts := {
  devtoolsLogs : gmap string DevtoolsLog;
}.

(** The part of the network analysis the audit reads: the entries of the
    [Map] [serverResponseTimeByOrigin], in insertion order. *)
Record NetworkAnalysis := {
  serverResponseTimeByOrigin : list (string * float);
}.

(** A row of the table, [{origin, serverResponseTime}]. *)
Record LatencyRow := {
  origin : string;
  serverResponseTime : float;
}.

(** The shared strings of [i18n.UIStrings] the audit uses, and a message
    built by [str_]. *)
Inductive UIString := columnURL | columnTimeSpent | ms.

Inductive IcuMessage :=
| str_ (message : UIString) (values : list (string * float)).

Record Heading := {
  key : string;
  itemType : string;
  granularity : option float;
  text : IcuMessage;
}.

(** What the audit takes from its base class [Audit]. *)
Class AuditBase := {
  Details : Type;
  DEFAULT_PASS : string;
  makeTableDetails : list Heading -> list LatencyRow -> Details;
}.

(** The computed artifacts the audit requests, and what each resolves to. *)
Inductive Request :=
| NetworkRecords_request (devtoolsLog : option DevtoolsLog)
    (context : AuditContext)
| NetworkAnalysis_request (devtoolsLog : option DevtoolsLog)
    (context : AuditContext).

Definition Response (r : Request) : Type :=
  match r with
  | NetworkRecords_request _ _ => list NetworkRequest
  | NetworkAnalysis_request _ _ => NetworkAnalysis
  end.

Definition Computed : Type := forall r : Request, Answer (Response r).

Inductive Asked :=
| asked (r : Request) (answer : Answer (Response r)).

Section Audit.
Context {base : AuditBase}.

(** [LH.Audit.Product], with the fields this audit sets. *)
Record Product := {
  score : float;
  notApplicable : option bool;
  numericValue : option float;
  numericUnit : option string;
  displayValue : option IcuMessage;
  details : option Details;
}.

Record Run := {
  requests : list Asked;
  product : Outcome Product;
}.

Definition headings : list Heading :=
  [{| key := "origin"; itemType := "text"; granularity := None;
      text := str_ columnURL [] |};
   {| key := "serverResponseTime"; itemType := "ms";
      granularity := Some 1%float; text := str_ columnTimeSpent [] |}].

(** One turn of the loop over the entries, on [(maxLatency, results)]. *)
Definition loopBody (state : float * list LatencyRow)
  (entry : string * float) : float * list LatencyRow :=
  let '(maxLatency, results) := state in
  let '(origin, serverResponseTime) := entry in
  if negb (String.prefix "http" origin) then state
  else (Math_max serverResponseTime maxLatency,
        (results ++ [{| origin := origin;
                        serverResponseTime := serverResponseTime |}])%list).

(** The comparator of the sort. *)
Definition byLatency (a b : LatencyRow) : float :=
  (serverResponseTime b - serverResponseTime a)%float.

Definition audit (artifacts : Artifacts) (context : AuditContext)
  (computed : Computed) : Run :=
  let devtoolsLog := devtoolsLogs artifacts !! DEFAULT_PASS in
  let recordsRequest := NetworkRecords_request devtoolsLog context in
  match computed recordsRequest with
  | Rejects e =>
      {| requests := [asked recordsRequest (Rejects e)];
         product := Rejected e |}
  | NeverSettles =>
      {| requests := [asked recordsRequest NeverSettles];
         product := Pending |}
  | Fulfils records =>
      if bool_decide (length records = 0) then
        {| requests := [asked recordsRequest (Fulfils records)];
           product := Resolved {| score := 1; notApplicable := Some true;
                                  numericValue := None; numericUnit := None;
                                  displayValue := None; details := None |} |}
      else
        let analysisRequest := NetworkAnalysis_request devtoolsLog context in
        match computed analysisRequest with
        | Rejects e =>
            {| requests := [asked recordsRequest (Fulfils records);
                            asked analysisRequest (Rejects e)];
               product := Rejected e |}
        | NeverSettles =>
            {| requests := [asked recordsRequest (Fulfils records);
                            asked analysisRequest NeverSettles];
               product := Pending |}
        | Fulfils analysis =>
            let '(maxLatency, results) :=
              fold_left loopBody (serverResponseTimeByOrigin analysis)
                (0%float, []) in
            let results := Array_sort byLatency results in
            let tableDetails := makeTableDetails headings results in
            {| requests := [asked recordsRequest (Fulfils records);
                            asked analysisRequest (Fulfils analysis)];
               product :=
                 Resolved {| score := Math_max (1 - maxLatency / 500) 0;
                             notApplicable := None;
                             numericValue := Some maxLatency;
                             numericUnit := Some "millisecond";
                             displayValue :=
                               Some (str_ ms [("timeInMs", maxLatency)]);
                             details := Some tableDetails |} |}
        end
  end.

End Audit.

(** ** Reading the audit *)

(** The entries whose origin starts with ['http'], as rows, in the order of
    the map. *)
Definition httpRows (analysis : NetworkAnalysis) : list LatencyRow :=
  (fun entry : string * float =>
     {| origin := entry.1; serverResponseTime := entry.2 |})
  <$> filter (fun entry : string * float => String.prefix "http" entry.1)
        (serverResponseTimeByOrigin analysis).

(** The latency of the row is a number, and so is every latency that goes
    into the table. *)
Definition timed (row : LatencyRow) : Prop :=
  is_nan (serverResponseTime row) = false.

Definition measured (analysis : NetworkAnalysis) : Prop :=
  Forall timed (httpRows analysis).

(** The table lists the slower origin first. *)
Definition slowerFirst (a b : LatencyRow) : Prop :=
  (serverResponseTime b <=? serverResponseTime a)%float = true.

(** The row has the latency [t]. *)
Definition hasLatency (t : float) (row : LatencyRow) : bool :=
  (serverResponseTime row =? t)%float.

(** The largest latency so far, as the loop keeps it. *)
Definition largest (rows : list LatencyRow) (maxLatency : float) : float :=
  fold_left (fun m row => Math_max (serverResponseTime row) m) rows maxLatency.

(** ** Worked data *)

Definition sampleBase : AuditBase :=
  {| Details := list Heading * list LatencyRow;
     DEFAULT_PASS := "defaultPass";
     makeTableDetails := pair |}.

Definition sampleLog : DevtoolsLog := DevtoolsLogOf "log".

Definition loggedArtifacts : Artifacts :=
  {| devtoolsLogs := {["defaultPass" := sampleLog]} |}.

Definition sampleContext : AuditContext := AuditContextOf "context".

Definition sampleAnalysis : NetworkAnalysis :=
  {| serverResponseTimeByOrigin :=
       [("https://example.com", 120.5%float);
        ("__SUMMARY__", 900%float);
        ("http://cdn.example.com", 300.25%float);
        ("https://fonts.example.com", 120.5%float)] |}.

(** One record, and the analysis above. *)
Definition sampleComputed : Computed :=
  fun r =>
    match r as r' return Answer (Response r') with
    | NetworkRecords_request _ _ =>
        Fulfils [NetworkRequestOf "https://example.com/"]
    | NetworkAnalysis_request _ _ => Fulfils sampleAnalysis
    end.

(** No record at all. *)
Definition idleComputed : Computed :=
  fun r =>
    match r as r' return Answer (Response r') with
    | NetworkRecords_request _ _ => Fulfils []
    | NetworkAnalysis_request _ _ => Rejects (GatherFailure "not requested")
    end.

(** An analysis with a latency that is not a number. *)
Definition nanAnalysis : NetworkAnalysis :=
  {| serverResponseTimeByOrigin :=
       [("https://example.com", 120.5%float);
        ("https://broken.example.com", nan)] |}.

Definition nanComputed : Computed :=
  fun r =>
    match r as r' return Answer (Response r') with
    | NetworkRecords_request _ _ =>
        Fulfils [NetworkRequestOf "https://example.com/"]
    | NetworkAnalysis_request _ _ => Fulfils nanAnalysis
    end.

End NetworkServerLatency.

(** * Facts about the session *)

(** ** What each operation does, by cases on the slots and on the answer *)

Lemma exec_navigate requestor stepFlags env n this :
  exec (navigate requestor stepFlags) env n this =
  if truthy (currentTimespan this) then rejects_with TimespanInProgress this
  else if truthy (currentNavigation this) then
    rejects_with NavigationInProgress this
  else
    let newStepFlags := _getNextNavigationFlags this stepFlags in
    let c := navigationGather (_page this) requestor (flowConfig this)
               newStepFlags in
    match env n c with
    | Fulfils gatherResult =>
        {| trace := [Called c (Fulfils gatherResult)];
           final := _addGatherStep gatherResult (Some newStepFlags) this;
           outcome := Resolved tt |}
    | Rejects e =>
        {| trace := [Called c (Rejects e)]; final := this;
           outcome := Rejected e |}
    | NeverSettles =>
        {| trace := [Called c NeverSettles]; final := this;
           outcome := Pending |}
    end.
Proof.
  unfold navigate. cbn.
  destruct (truthy (currentTimespan this)); [reflexivity|].
  destruct (truthy (currentNavigation this)); [reflexivity|].
  cbn. destruct (env n _); reflexivity.
Qed.

Lemma exec_startTimespan stepFlags env n this :
  exec (startTimespan stepFlags) env n this =
  if truthy (currentTimespan this) then rejects_with TimespanInProgress this
  else if truthy (currentNavigation this) then
    rejects_with NavigationInProgress this
  else
    let c := startTimespanGather (_page this) (flowConfig this) stepFlags in
    match env n c with
    | Fulfils t =>
        {| trace := [Called c (Fulfils t)];
           final := set_currentTimespan
                      (Some {| ts_timespan := t; ts_stepFlags := stepFlags |})
                      this;
           outcome := Resolved tt |}
    | Rejects e =>
        {| trace := [Called c (Rejects e)]; final := this;
           outcome := Rejected e |}
    | NeverSettles =>
        {| trace := [Called c NeverSettles]; final := this;
           outcome := Pending |}
    end.
Proof.
  unfold startTimespan. cbn.
  destruct (truthy (currentTimespan this)); [reflexivity|].
  destruct (truthy (currentNavigation this)); [reflexivity|].
  cbn. destruct (env n _); reflexivity.
Qed.

Lemma exec_endTimespan env n this :
  exec endTimespan env n this =
  match currentTimespan this with
  | None => rejects_with NoTimespanInProgress this
  | Some h =>
      if truthy (currentNavigation this) then
        rejects_with NavigationInProgress this
      else
        let c := endTimespanGather (ts_timespan h) in
        match env n c with
        | Fulfils gatherResult =>
            {| trace := [Called c (Fulfils gatherResult)];
               final := _addGatherStep gatherResult (ts_stepFlags h)
                          (set_currentTimespan None this);
               outcome := Resolved tt |}
        | Rejects e =>
            {| trace := [Called c (Rejects e)]; final := this;
               outcome := Rejected e |}
        | NeverSettles =>
            {| trace := [Called c NeverSettles]; final := this;
               outcome := Pending |}
        end
  end.
Proof.
  unfold endTimespan. cbn.
  destruct (currentTimespan this) as [h|]; [|reflexivity].
  destruct (truthy (currentNavigation this)); [reflexivity|].
  cbn. destruct (env n _); reflexivity.
Qed.

Lemma exec_snapshot stepFlags env n this :
  exec (snapshot stepFlags) env n this =
  if truthy (currentTimespan this) then rejects_with TimespanInProgress this
  else if truthy (currentNavigation this) then
    rejects_with NavigationInProgress this
  else
    let c := snapshotGather (_page this) (flowConfig this) stepFlags in
    match env n c with
    | Fulfils gatherResult =>
        {| trace := [Called c (Fulfils gatherResult)];
           final := _addGatherStep gatherResult stepFlags this;
           outcome := Resolved tt |}
    | Rejects e =>
        {| trace := [Called c (Rejects e)]; final := this;
           outcome := Rejected e |}
    | NeverSettles =>
        {| trace := [Called c NeverSettles]; final := this;
           outcome := Pending |}
    end.
Proof.
  unfold snapshot. cbn.
  destruct (truthy (currentTimespan this)); [reflexivity|].
  destruct (truthy (currentNavigation this)); [reflexivity|].
  cbn. destruct (env n _); reflexivity.
Qed.

(** [navigate] run up to its [await]: the guards, then the call to the
    gatherer with the flags computed from the steps gathered so far; the
    suspended rest pushes the step with these same flags. *)
Lemma runToAwait_navigate requestor stepFlags this :
  runToAwait (navigate requestor stepFlags) this =
  (this,
   if truthy (currentTimespan this) then Threw TimespanInProgress
   else if truthy (currentNavigation this) then Threw NavigationInProgress
   else
     let newStepFlags := _getNextNavigationFlags this stepFlags in
     Awaiting
       (navigationGather (_page this) requestor (flowConfig this) newStepFlags)
       (fun gatherResult : GatherResult =>
          update (_addGatherStep gatherResult (Some newStepFlags)))).
Proof.
  unfold navigate. cbn.
  destruct (truthy (currentTimespan this)); [reflexivity|].
  destruct (truthy (currentNavigation this)); reflexivity.
Qed.

Lemma startNavigation_cases stepOptions g rt :
  startNavigation stepOptions g rt =
  let this := flow rt in
  if truthy (currentNavigation this) then (rt, Pending)
  else if truthy (currentTimespan this) then (rt, Rejected TimespanInProgress)
  else
    match g with
    | InvokesRequestor => (installed stepOptions rt, Resolved tt)
    | SettlesWithoutRequestor env =>
        let newStepFlags := _getNextNavigationFlags this stepOptions in
        match env 0 (navigationGather (_page this) RequestorHandshake
                       (flowConfig this) newStepFlags) with
        | Fulfils gatherResult =>
            ({| flow := _addGatherStep gatherResult (Some newStepFlags) this;
                promises := promises rt |}, Pending)
        | Rejects e => (rt, Rejected e)
        | NeverSettles => (rt, Pending)
        end
    end.
Proof.
  destruct rt as [this ps]. unfold startNavigation.
  rewrite runToAwait_navigate. cbn.
  destruct (currentNavigation this) as [h|] eqn:Hnav;
    destruct (currentTimespan this) as [t|] eqn:Hts; cbn;
    unfold setupWithoutRequestor, catchHandler; cbn; rewrite ?Hnav; cbn;
    try reflexivity.
  destruct g as [|env]; [reflexivity|].
  cbn. destruct (env 0 _); cbn; unfold catchHandler; rewrite ?Hnav;
    reflexivity.
Qed.

(** ** The invariant of a session *)

Lemma exec_resume_navigate page requestor cfg flags env n this :
  let c := navigationGather page requestor cfg flags in
  exec (Await c (fun gatherResult : GatherResult =>
                   update (_addGatherStep gatherResult (Some flags))))
       env n this =
  match env n c with
  | Fulfils gatherResult =>
      {| trace := [Called c (Fulfils gatherResult)];
         final := _addGatherStep gatherResult (Some flags) this;
         outcome := Resolved tt |}
  | Rejects e =>
      {| trace := [Called c (Rejects e)]; final := this;
         outcome := Rejected e |}
  | NeverSettles =>
      {| trace := [Called c NeverSettles]; final := this; outcome := Pending |}
  end.
Proof. cbn. destruct (env n _); reflexivity. Qed.

(** [endNavigation] on a handle whose [navigate()] call is suspended. *)
Lemma endNavigation_resume env rt h page requestor cfg flags :
  let c := navigationGather page requestor cfg flags in
  let k := fun gatherResult : GatherResult =>
             update (_addGatherStep gatherResult (Some flags)) in
  let p := continueAndAwaitResult h in
  truthy (currentTimespan (flow rt)) = false ->
  currentNavigation (flow rt) = Some h ->
  promises rt !! p = Some (NavAwaiting c k) ->
  endNavigation env rt =
  match env 0 c with
  | Fulfils gatherResult =>
      ({| flow := set_currentNavigation None
                    (_addGatherStep gatherResult (Some flags) (flow rt));
          promises := <[p := NavFulfilled]> (promises rt) |}, Resolved tt)
  | Rejects e =>
      ({| flow := flow rt; promises := <[p := NavRejected e]> (promises rt) |},
       Rejected e)
  | NeverSettles =>
      ({| flow := flow rt; promises := <[p := NavAwaiting c k]> (promises rt) |},
       Pending)
  end.
Proof.
  intros c k p Hts Hnav Hp. unfold endNavigation.
  rewrite Hts, Hnav. fold p. rewrite Hp. subst c k.
  rewrite exec_resume_navigate. cbn zeta.
  destruct (env 0 _); cbn; unfold catchHandler; cbn; rewrite ?Hnav; reflexivity.
Qed.

Lemma new_Runtime_consistent page options :
  consistent (new_Runtime page options).
Proof.
  split; cbn.
  - left; reflexivity.
  - constructor.
  - intros h Hh; discriminate.
Qed.

Lemma truthy_None {A : Type} (o : option A) : truthy o = false <-> o = None.
Proof. destruct o; cbn; split; congruence. Qed.

Lemma truthy_Some {A : Type} (o : option A) : truthy o = true <-> is_Some o.
Proof.
  destruct o; cbn; split; intros H; try done.
Qed.

Ltac slots this :=
  let Hts := fresh "Hts" in
  let Hnav := fresh "Hnav" in
  destruct (truthy (currentTimespan this)) eqn:Hts;
  [|destruct (truthy (currentNavigation this)) eqn:Hnav;
    [|apply truthy_None in Hts; apply truthy_None in Hnav]].

Lemma perform_consistent t env rt :
  (forall this,
     exclusive this ->
     exclusive (final (exec t env 0 this)) /\
     currentNavigation (final (exec t env 0 this)) = currentNavigation this) ->
  consistent rt -> consistent (perform t env rt).1.
Proof.
  intros Ht [Hex Hps Hh]. destruct (Ht _ Hex) as [Hex' Hnav].
  split; cbn.
  - exact Hex'.
  - exact Hps.
  - intros h. rewrite Hnav. apply Hh.
Qed.

Lemma invoke_consistent op rt :
  consistent rt -> consistent (invoke op rt).1.
Proof.
  intros Hrt. destruct op as [requestor stepFlags env|stepOptions g|env
                             |stepFlags env|env|stepFlags env]; cbn [invoke].
  - apply perform_consistent; [|exact Hrt].
    intros this Hex. rewrite exec_navigate.
    slots this; cbn; try (split; [exact Hex|reflexivity]).
    destruct (env 0 _); cbn; rewrite ?Hnav, ?Hts; split; auto; left; auto.
  - rewrite startNavigation_cases. cbn zeta.
    pose proof Hrt as [Hex Hps Hh].
    destruct (truthy (currentNavigation (flow rt))) eqn:Hnav; [exact Hrt|].
    destruct (truthy (currentTimespan (flow rt))) eqn:Hts; [exact Hrt|].
    apply truthy_None in Hnav, Hts.
    destruct g as [|env].
    + cbn. split; cbn.
      * right; exact Hts.
      * apply Forall_app; split; [exact Hps|].
        repeat constructor.
      * intros h [= <-]. cbn. rewrite length_app. cbn. lia.
    + destruct (env 0 _); cbn [fst]; try exact Hrt.
      split; cbn.
      * left; exact Hnav.
      * exact Hps.
      * rewrite Hnav. intros h; discriminate.
  - pose proof Hrt as [Hex Hps Hh]. unfold endNavigation.
    destruct (truthy (currentTimespan (flow rt))) eqn:Hts; [exact Hrt|].
    destruct (currentNavigation (flow rt)) as [h|] eqn:Hnav; [|exact Hrt].
    destruct (promises rt !! continueAndAwaitResult h) as [p|] eqn:Hp;
      [|exact Hrt].
    pose proof (proj1 (Forall_lookup _ _) Hps _ _ Hp) as Hfrom.
    destruct Hfrom as [page requestor cfg flags|err|]; cbn zeta.
    + pose proof (endNavigation_resume env rt h page requestor cfg flags
                    Hts Hnav Hp) as Hend.
      unfold endNavigation in Hend. rewrite Hts, Hnav, Hp in Hend.
      rewrite Hend. clear Hend.
      destruct (env 0 _); cbn.
      * split; cbn; [left; reflexivity| |intros ?; discriminate].
        apply Forall_insert; [exact Hps|constructor].
      * split; cbn; [exact (slots_exclusive _ Hrt)| |].
        -- apply Forall_insert; [exact Hps|constructor].
        -- rewrite length_insert. exact (handle_allocated _ Hrt).
      * split; cbn; [exact (slots_exclusive _ Hrt)| |].
        -- apply Forall_insert; [exact Hps|constructor].
        -- rewrite length_insert. exact (handle_allocated _ Hrt).
    + exact Hrt.
    + cbn. split; cbn; [left; reflexivity|exact Hps|intros ?; discriminate].
  - apply perform_consistent; [|exact Hrt].
    intros this Hex. rewrite exec_startTimespan.
    slots this; cbn; try (split; [exact Hex|reflexivity]).
    destruct (env 0 _); cbn; rewrite ?Hnav, ?Hts; split; auto; left; auto.
  - apply perform_consistent; [|exact Hrt].
    intros this Hex. rewrite exec_endTimespan.
    destruct (currentTimespan this) as [h|]; [|split; [exact Hex|reflexivity]].
    destruct (truthy (currentNavigation this)) eqn:Hnav;
      [split; [exact Hex|reflexivity]|].
    apply truthy_None in Hnav. cbn zeta.
    destruct (env 0 _); cbn; rewrite ?Hnav; split; auto; left; auto.
  - apply perform_consistent; [|exact Hrt].
    intros this Hex. rewrite exec_snapshot.
    slots this; cbn; try (split; [exact Hex|reflexivity]).
    destruct (env 0 _); cbn; rewrite ?Hnav, ?Hts; split; auto; left; auto.
Qed.

Lemma runFlow_consistent ops rt :
  consistent rt -> consistent (runFlow ops rt).
Proof.
  revert rt. induction ops as [|op ops IH]; intros rt Hrt; cbn; [exact Hrt|].
  pose proof (invoke_consistent op rt Hrt) as Hnext.
  destruct (invoke op rt) as [rt' [[]|e|]]; cbn in Hnext; auto.
Qed.

Lemma runtime_eta rt : {| flow := flow rt; promises := promises rt |} = rt.
Proof. destruct rt; reflexivity. Qed.

(** An operation invoked while a timespan is in progress, other than
    [endTimespan], rejects with [TimespanInProgress] and changes nothing. *)
Lemma timespan_blocks op rt :
  is_Some (currentTimespan (flow rt)) ->
  currentNavigation (flow rt) = None ->
  isEndTimespan op = false ->
  invoke op rt = (rt, Rejected TimespanInProgress).
Proof.
  intros Hts%truthy_Some Hnav%truthy_None Hop.
  destruct op as [requestor stepFlags env|stepOptions g|env
                 |stepFlags env|env|stepFlags env];
    try discriminate; cbn [invoke]; unfold perform.
  - rewrite exec_navigate, Hts. cbn. by rewrite runtime_eta.
  - rewrite startNavigation_cases. cbn zeta. by rewrite Hnav, Hts.
  - unfold endNavigation. by rewrite Hts.
  - rewrite exec_startTimespan, Hts. cbn. by rewrite runtime_eta.
  - rewrite exec_snapshot, Hts. cbn. by rewrite runtime_eta.
Qed.

(** * Facts about the handshake and the slots *)

(** X1: whatever operations a caller awaits in turn on a new session, at
    most one of [currentNavigation] and [currentTimespan] is set. *)
Theorem at_most_one_slot_in_use ops page options :
  exclusive (flow (runFlow ops (new_Runtime page options))).
Proof.
  apply slots_exclusive, runFlow_consistent, new_Runtime_consistent.
Qed.

(** X2: a conflicting operation, other than [startNavigation] during a
    navigation, rejects with one of the precondition errors and leaves the
    session, its step list included, as it was. *)
Theorem conflicting_operation_rejected op rt :
  conflicting op (flow rt) = true ->
  startsBehindHandle op (flow rt) = false ->
  exists e, invoke op rt = (rt, Rejected e) /\ InvalidFlowState e = true.
Proof.
  intros Hconf Hnot.
  destruct op as [requestor stepFlags env|stepOptions g|env
                 |stepFlags env|env|stepFlags env];
    cbn in Hconf, Hnot; cbn [invoke]; unfold perform.
  - rewrite exec_navigate.
    destruct (truthy (currentTimespan (flow rt)));
      [|rewrite orb_false_r in Hconf; rewrite Hconf];
      cbn; rewrite runtime_eta; eauto.
  - rewrite startNavigation_cases. cbn zeta. rewrite Hnot in *.
    cbn in Hconf. rewrite Hconf. eauto.
  - unfold endNavigation. rewrite Hconf. eauto.
  - rewrite exec_startTimespan.
    destruct (truthy (currentTimespan (flow rt)));
      [|rewrite orb_false_r in Hconf; rewrite Hconf];
      cbn; rewrite runtime_eta; eauto.
  - rewrite exec_endTimespan, Hconf.
    destruct (currentTimespan (flow rt)); cbn; rewrite runtime_eta; eauto.
  - rewrite exec_snapshot.
    destruct (truthy (currentTimespan (flow rt)));
      [|rewrite orb_false_r in Hconf; rewrite Hconf];
      cbn; rewrite runtime_eta; eauto.
Qed.

Lemma conflicting_operation_rejected_witness :
  conflicting (call_snapshot None obligingEnv) (flow duringTimespan) = true /\
  exists e,
    invoke (call_snapshot None obligingEnv) duringTimespan
      = (duringTimespan, Rejected e) /\
    InvalidFlowState e = true.
Proof.
  split; [reflexivity|].
  exact (conflicting_operation_rejected (call_snapshot None obligingEnv)
           duringTimespan eq_refl eq_refl).
Defined.

(** With a handle in the slot the [.catch] handler of [startNavigation]
    rethrows whatever [navigate()] failed with, and nothing settles
    [navigationSetupPromise]: the operation never settles. *)
Lemma startNavigation_behind_handle stepOptions g rt :
  is_Some (currentNavigation (flow rt)) ->
  startNavigation stepOptions g rt = (rt, Pending).
Proof.
  intros Hnav%truthy_Some. rewrite startNavigation_cases. cbn zeta.
  by rewrite Hnav.
Qed.

(** C1, where the code departs from it: [startNavigation] invoked while a
    navigation is in progress.  The first call installs the handle; the
    second neither rejects nor resolves, and the session stays as the first
    call left it. *)
Theorem startNavigation_during_navigation_never_settles :
  let started :=
    invoke (call_startNavigation None InvokesRequestor)
      (new_Runtime samplePage None) in
  let again := invoke (call_startNavigation None InvokesRequestor) started.1 in
  started.2 = Resolved tt /\
  currentNavigation (flow started.1) = Some {| continueAndAwaitResult := 0 |} /\
  again.2 = Pending /\
  again.1 = started.1.
Proof. repeat split. Qed.

(** C2, where the code departs from it: the [navigate()] call made by a
    second [startNavigation] fails on its precondition; the first call's
    handle is in the slot, so the failure is rethrown into a promise that no
    handle holds.  [startNavigation] does not reject, and the
    [endNavigation] that follows resolves: the failure is raised nowhere. *)
Theorem precondition_failure_behind_handle_is_lost :
  let started :=
    startNavigation None InvokesRequestor (new_Runtime samplePage None) in
  let again := startNavigation None InvokesRequestor started.1 in
  let ended := endNavigation obligingEnv again.1 in
  (runToAwait (navigate RequestorHandshake None) (flow started.1)).2
    = Threw NavigationInProgress /\
  again.2 = Pending /\
  promises again.1 = promises started.1 /\
  ended.2 = Resolved tt.
Proof. repeat split. Qed.

(** X3: with no handle in the slot, a [navigate()] that fails before the
    gatherer has called the requestor makes [startNavigation] reject with
    that failure, and the session is left without a handle. *)
Theorem setup_failure_rejects_startNavigation stepOptions env rt e :
  currentNavigation (flow rt) = None ->
  outcome (exec (navigate RequestorHandshake stepOptions) env 0 (flow rt))
    = Rejected e ->
  startNavigation stepOptions (SettlesWithoutRequestor env) rt
    = (rt, Rejected e) /\
  ((runToAwait (navigate RequestorHandshake stepOptions) (flow rt)).2 = Threw e ->
   forall g, startNavigation stepOptions g rt = (rt, Rejected e)).
Proof.
  intros Hnav%truthy_None. rewrite exec_navigate, runToAwait_navigate.
  setoid_rewrite startNavigation_cases. cbn zeta. rewrite Hnav.
  destruct (truthy (currentTimespan (flow rt))); cbn.
  - intros [= <-]. split; [reflexivity|]. intros _ g. reflexivity.
  - destruct (env 0 _); cbn; try discriminate.
    intros [= <-]. split; [reflexivity|]. discriminate.
Qed.

Lemma setup_failure_rejects_startNavigation_witness :
  let boom := GatherFailure "Target closed" in
  startNavigation None (SettlesWithoutRequestor (failingEnv boom))
    (new_Runtime samplePage None)
    = (new_Runtime samplePage None, Rejected boom) /\
  startNavigation None InvokesRequestor duringTimespan
    = (duringTimespan, Rejected TimespanInProgress).
Proof.
  cbv zeta. split.
  - exact (proj1 (setup_failure_rejects_startNavigation None
                    (failingEnv (GatherFailure "Target closed"))
                    (new_Runtime samplePage None)
                    (GatherFailure "Target closed") eq_refl eq_refl)).
  - exact (proj2 (setup_failure_rejects_startNavigation None obligingEnv
                    duringTimespan TimespanInProgress eq_refl eq_refl)
             eq_refl InvokesRequestor).
Defined.

(** X4: a handshake on a free session.  [startNavigation] resolves once the
    gatherer has called the requestor and leaves a handle in the slot.  If
    the gatherer then fails, [endNavigation] rejects with that failure; if it
    succeeds, [endNavigation] resolves, clears the slot and has pushed one
    step, with the flags computed when the handshake began. *)
Theorem handshake_outcome_surfaces_from_endNavigation stepOptions env rt :
  currentNavigation (flow rt) = None ->
  currentTimespan (flow rt) = None ->
  let newStepFlags := _getNextNavigationFlags (flow rt) stepOptions in
  let started := startNavigation stepOptions InvokesRequestor rt in
  let ended := endNavigation env started.1 in
  started.2 = Resolved tt /\
  currentNavigation (flow started.1)
    = Some {| continueAndAwaitResult := length (promises rt) |} /\
  _gatherSteps (flow started.1) = _gatherSteps (flow rt) /\
  match env 0 (navigationGather (_page (flow rt)) RequestorHandshake
                 (flowConfig (flow rt)) newStepFlags) with
  | Rejects e => ended.2 = Rejected e
  | Fulfils gatherResult =>
      ended.2 = Resolved tt /\
      currentNavigation (flow ended.1) = None /\
      _gatherSteps (flow ended.1) =
        (_gatherSteps (flow rt) ++
         [{| ref := length (_gatherSteps (flow rt));
             artifacts := gr_artifacts gatherResult;
             stepFlags := Some newStepFlags |}])%list
  | NeverSettles => ended.2 = Pending
  end.
Proof.
  intros Hnav Hts newStepFlags started ended.
  subst ended started. rewrite startNavigation_cases. cbn zeta.
  rewrite Hnav, Hts. cbn.
  repeat split.
  unfold endNavigation. cbn. rewrite Hts. cbn.
  rewrite list_lookup_middle by reflexivity.
  subst newStepFlags. destruct (env 0 _); cbn; done.
Qed.

Lemma handshake_outcome_surfaces_from_endNavigation_witness :
  let started :=
    startNavigation None InvokesRequestor (new_Runtime samplePage None) in
  let ended := endNavigation obligingEnv started.1 in
  started.2 = Resolved tt /\
  ended.2 = Resolved tt /\
  currentNavigation (flow ended.1) = None /\
  length (_gatherSteps (flow ended.1)) = 1.
Proof.
  cbv zeta.
  pose proof (handshake_outcome_surfaces_from_endNavigation None obligingEnv
                (new_Runtime samplePage None) eq_refl eq_refl) as H.
  cbv zeta in H. destruct H as (Hstart & _ & _ & Hend).
  cbn in Hend. destruct Hend as (Hres & Hslot & Hsteps).
  split; [exact Hstart|]. split; [exact Hres|]. split; [exact Hslot|].
  exact (f_equal length Hsteps).
Defined.

(** ** Steps and their recorded options *)

Lemma invoke_grows op rt :
  consistent rt -> grows (flow rt) (flow (invoke op rt).1).
Proof.
  intros Hrt.
  assert (Hadd : forall gatherResult flags this,
             _gatherSteps this = _gatherSteps (flow rt) ->
             _gatherStepRunnerOptions this = _gatherStepRunnerOptions (flow rt) ->
             grows (flow rt) (_addGatherStep gatherResult flags this)).
  { intros gatherResult flags this Hsteps Hreg. right.
    exists gatherResult, flags. cbn. by rewrite Hsteps, Hreg. }
  assert (Hsame : grows (flow rt) (flow rt)) by (by left).
  destruct op as [requestor stepFlags env|stepOptions g|env
                 |stepFlags env|env|stepFlags env]; cbn [invoke];
    unfold perform; cbn [fst flow].
  - rewrite exec_navigate.
    destruct (truthy (currentTimespan (flow rt))); [exact Hsame|].
    destruct (truthy (currentNavigation (flow rt))); [exact Hsame|].
    cbn zeta. destruct (env 0 _); cbn; auto.
  - rewrite startNavigation_cases. cbn zeta.
    destruct (truthy (currentNavigation (flow rt))); [exact Hsame|].
    destruct (truthy (currentTimespan (flow rt))); [exact Hsame|].
    destruct g as [|env]; [by left|].
    destruct (env 0 _); cbn; auto.
  - destruct (truthy (currentTimespan (flow rt))) eqn:Hts;
      [unfold endNavigation; by rewrite Hts|].
    destruct (currentNavigation (flow rt)) as [h|] eqn:Hnav;
      [|unfold endNavigation; by rewrite Hts, Hnav].
    destruct (promises rt !! continueAndAwaitResult h) as [p|] eqn:Hp;
      [|unfold endNavigation; by rewrite Hts, Hnav, Hp].
    pose proof (proj1 (Forall_lookup _ _) (promises_from_navigate _ Hrt) _ _ Hp)
      as Hfrom.
    destruct Hfrom as [page requestor cfg flags|err|].
    + rewrite (endNavigation_resume env rt h page requestor cfg flags Hts Hnav Hp).
      destruct (env 0 _); cbn; auto.
      right. eexists _, _. split; reflexivity.
    + unfold endNavigation. by rewrite Hts, Hnav, Hp.
    + unfold endNavigation. rewrite Hts, Hnav, Hp. by left.
  - rewrite exec_startTimespan.
    destruct (truthy (currentTimespan (flow rt))); [exact Hsame|].
    destruct (truthy (currentNavigation (flow rt))); [exact Hsame|].
    cbn zeta. destruct (env 0 _); cbn; auto.
  - rewrite exec_endTimespan.
    destruct (currentTimespan (flow rt)) as [h|]; [|exact Hsame].
    destruct (truthy (currentNavigation (flow rt))); [exact Hsame|].
    cbn zeta. destruct (env 0 _); cbn; auto.
  - rewrite exec_snapshot.
    destruct (truthy (currentTimespan (flow rt))); [exact Hsame|].
    destruct (truthy (currentNavigation (flow rt))); [exact Hsame|].
    cbn zeta. destruct (env 0 _); cbn; auto.
Qed.

Lemma grows_registered this this' :
  grows this this' -> registered this -> registered this'.
Proof.
  intros [[Hsteps Hreg]|(gatherResult & flags & Hsteps & Hreg)] Hok i step;
    rewrite Hsteps, Hreg; [apply Hok|].
  intros Hi. destruct (decide (i = length (_gatherSteps this))) as [->|Hne].
  - rewrite list_lookup_middle in Hi by reflexivity. injection Hi as <-.
    cbn. split; [reflexivity|]. rewrite lookup_insert_eq. eauto.
  - assert (Hlt : i < length (_gatherSteps this)).
    { apply lookup_lt_Some in Hi. rewrite length_app in Hi. cbn in Hi. lia. }
    rewrite lookup_app_l in Hi by exact Hlt.
    destruct (Hok i step Hi) as [Href Hopt]. split; [exact Href|].
    by rewrite lookup_insert_ne.
Qed.

Lemma runFlow_registered ops rt :
  consistent rt -> registered (flow rt) -> registered (flow (runFlow ops rt)).
Proof.
  revert rt. induction ops as [|op ops IH]; intros rt Hrt Hreg; cbn; [exact Hreg|].
  pose proof (invoke_consistent op rt Hrt) as Hnext.
  pose proof (grows_registered _ _ (invoke_grows op rt Hrt) Hreg) as Hreg'.
  destruct (invoke op rt) as [rt' [[]|e|]]; cbn in *; auto.
Qed.

Lemma runFlow_prefix ops rt :
  consistent rt ->
  _gatherSteps (flow rt) `prefix_of` _gatherSteps (flow (runFlow ops rt)).
Proof.
  revert rt. induction ops as [|op ops IH]; intros rt Hrt; cbn; [done|].
  pose proof (invoke_consistent op rt Hrt) as Hnext.
  assert (Hstep : _gatherSteps (flow rt)
                    `prefix_of` _gatherSteps (flow (invoke op rt).1)).
  { destruct (invoke_grows op rt Hrt)
      as [[-> _]|(gatherResult & flags & -> & _)]; [done|].
    by apply prefix_app_r. }
  destruct (invoke op rt) as [rt' [[]|e|]]; cbn in *; auto;
    etrans; [exact Hstep|by apply IH|exact Hstep|by apply IH].
Qed.

(** X5: the steps of a session are only ever pushed: whatever operations
    follow, the steps recorded so far stay where they are, in their order. *)
Theorem steps_only_grow before after page options :
  _gatherSteps (flow (runFlow before (new_Runtime page options)))
    `prefix_of`
  _gatherSteps (flow (runFlow after
                        (runFlow before (new_Runtime page options)))).
Proof.
  apply runFlow_prefix, runFlow_consistent, new_Runtime_consistent.
Qed.

(** X6: every step a session has recorded is filed in the registry under
    its own identity, so [createFlowResult] finds recorded options for each
    of them and rebuilds none. *)
Theorem live_steps_have_recorded_options ops page options step :
  let this := flow (runFlow ops (new_Runtime page options)) in
  step ∈ _gatherSteps this ->
  is_Some (recordedOptions (sessionAuditOptions this) step).
Proof.
  intros this [i Hi]%list_elem_of_lookup.
  assert (Hreg : registered this).
  { apply runFlow_registered; [apply new_Runtime_consistent|].
    intros j s Hj. discriminate. }
  destruct (Hreg i step Hi) as [Href Hopt].
  unfold recordedOptions. cbn. by rewrite Href.
Qed.

Lemma live_steps_have_recorded_options_witness :
  let this := flow afterOneNavigation in
  exists step,
    _gatherSteps this = [step] /\
    ref step = 0 /\
    is_Some (recordedOptions (sessionAuditOptions this) step).
Proof.
  cbv zeta. eexists. split; [reflexivity|]. split; [reflexivity|].
  apply (live_steps_have_recorded_options
           [call_navigate (RequestorUrl "https://example.com/") None
              obligingEnv] samplePage None).
  apply list_elem_of_lookup. exists 0. reflexivity.
Defined.




Lemma isSubsequentNavigation_spec (this : UserFlow) :
  existsb isNavigationStep (_gatherSteps this) = true <->
  exists step, step ∈ _gatherSteps this /\
               gatherMode (GatherContext (artifacts step)) = navigationMode.
Proof.
  rewrite existsb_exists. split; intros (step & Hin & Hmode); exists step.
  - split; [by apply list_elem_of_In|]. by apply bool_decide_eq_true in Hmode.
  - split; [by apply list_elem_of_In|]. by apply bool_decide_eq_true.
Qed.

(** C4: the flags of a navigation step, against what the caller passed
    ([stepFlags ≫= field] is the caller's value of [field]: none when no
    flags object was passed or the object does not set the field).
    [skipAboutBlank] is the caller's value, and [true] without one;
    [disableStorageReset] is the caller's value, and without one it is [true]
    exactly when a step already in the list was gathered in navigation mode,
    and otherwise stays unset; the name and the other flags are the
    caller's.  [navigate] computes them before it calls the gatherer, hands
    them to it, and the step it pushes once the gatherer has answered carries
    these same flags, whatever the session has become in between; the
    [navigate] call made by [startNavigation] is this one. *)
Theorem navigation_flags_fixed_at_start requestor stepFlags this :
  currentTimespan this = None ->
  currentNavigation this = None ->
  let newStepFlags := _getNextNavigationFlags this stepFlags in
  let suspended := fun gatherResult : GatherResult =>
    update (_addGatherStep gatherResult (Some newStepFlags)) in
  skipAboutBlank newStepFlags
    = Some (default true (stepFlags ≫= skipAboutBlank)) /\
  disableStorageReset newStepFlags =
    match stepFlags ≫= disableStorageReset with
    | Some explicit => Some explicit
    | None =>
        if existsb isNavigationStep (_gatherSteps this) then Some true
        else None
    end /\
  (existsb isNavigationStep (_gatherSteps this) = true <->
   exists step, step ∈ _gatherSteps this /\
                gatherMode (GatherContext (artifacts step)) = navigationMode) /\
  name newStepFlags = stepFlags ≫= name /\
  otherFlags newStepFlags = default [] (otherFlags <$> stepFlags) /\
  runToAwait (navigate requestor stepFlags) this =
    (this,
     Awaiting (navigationGather (_page this) requestor (flowConfig this)
                 newStepFlags) suspended) /\
  (forall gatherResult env n later,
     outcome (exec (suspended gatherResult) env n later) = Resolved tt /\
     _gatherSteps (final (exec (suspended gatherResult) env n later)) =
       (_gatherSteps later ++
        [{| ref := length (_gatherSteps later);
            artifacts := gr_artifacts gatherResult;
            stepFlags := Some newStepFlags |}])%list) /\
  (forall heap,
     startNavigation stepFlags InvokesRequestor
       {| flow := this; promises := heap |} =
     ({| flow := set_currentNavigation
                   (Some {| continueAndAwaitResult := length heap |}) this;
         promises :=
           (heap ++
            [NavAwaiting
               (navigationGather (_page this) RequestorHandshake
                  (flowConfig this) newStepFlags) suspended])%list |},
      Resolved tt)).
Proof.
  intros Hts Hnav newStepFlags suspended.
  assert (Hflags :
    skipAboutBlank newStepFlags
      = Some (default true (stepFlags ≫= skipAboutBlank)) /\
    disableStorageReset newStepFlags =
      match stepFlags ≫= disableStorageReset with
      | Some explicit => Some explicit
      | None =>
          if existsb isNavigationStep (_gatherSteps this) then Some true
          else None
      end /\
    name newStepFlags = stepFlags ≫= name /\
    otherFlags newStepFlags = default [] (otherFlags <$> stepFlags)).
  { subst newStepFlags. unfold _getNextNavigationFlags.
    destruct stepFlags as [[nm sab dsr others]|]; cbn;
      [destruct sab, dsr|];
      destruct (existsb isNavigationStep (_gatherSteps this)); cbn; done. }
  destruct Hflags as (Hsab & Hdsr & Hname & Hothers).
  repeat split; try assumption.
  - apply isSubsequentNavigation_spec.
  - apply isSubsequentNavigation_spec.
  - rewrite runToAwait_navigate, Hts, Hnav. reflexivity.
  - intros heap. rewrite startNavigation_cases. cbn. rewrite Hts, Hnav.
    reflexivity.
Qed.

Lemma navigation_flags_fixed_at_start_witness :
  let this := flow afterOneNavigation in
  let explicit := {| name := Some "Checkout"; skipAboutBlank := Some false;
                     disableStorageReset := Some false;
                     otherFlags := [("formFactor", "desktop")] |} in
  (currentTimespan this = None /\ currentNavigation this = None) /\
  existsb isNavigationStep (_gatherSteps this) = true /\
  (skipAboutBlank (_getNextNavigationFlags this None) = Some true /\
   disableStorageReset (_getNextNavigationFlags this None) = Some true /\
   name (_getNextNavigationFlags this None) = None /\
   otherFlags (_getNextNavigationFlags this None) = []) /\
  (skipAboutBlank (_getNextNavigationFlags this (Some explicit)) = Some false /\
   disableStorageReset (_getNextNavigationFlags this (Some explicit))
     = Some false /\
   name (_getNextNavigationFlags this (Some explicit)) = Some "Checkout" /\
   otherFlags (_getNextNavigationFlags this (Some explicit))
     = [("formFactor", "desktop")]).
Proof.
  cbv zeta. split; [split; reflexivity|]. split; [reflexivity|].
  pose proof (navigation_flags_fixed_at_start (RequestorFn "click") None
                (flow afterOneNavigation) eq_refl eq_refl) as Hnone.
  pose proof (navigation_flags_fixed_at_start (RequestorFn "click")
                (Some {| name := Some "Checkout"; skipAboutBlank := Some false;
                         disableStorageReset := Some false;
                         otherFlags := [("formFactor", "desktop")] |})
                (flow afterOneNavigation) eq_refl eq_refl) as Hexplicit.
  cbv zeta in Hnone, Hexplicit.
  destruct Hnone as (Hsab & Hdsr & _ & Hname & Hothers & _).
  destruct Hexplicit as (Hsab' & Hdsr' & _ & Hname' & Hothers' & _).
  split; [split; [exact Hsab|split; [exact Hdsr|split; [exact Hname|exact Hothers]]]|].
  split; [exact Hsab'|split; [exact Hdsr'|split; [exact Hname'|exact Hothers']]].
Defined.

(** C9: when the end-capture call of [endTimespan] fails, [endTimespan]
    rejects with that failure and the session is left exactly as it was: no
    step is pushed and [currentTimespan] is still set.  Every operation
    invoked afterwards, as long as none is [endTimespan], rejects with
    [TimespanInProgress] and again changes nothing. *)
Theorem endTimespan_failure_keeps_timespan env rt h e ops :
  currentTimespan (flow rt) = Some h ->
  currentNavigation (flow rt) = None ->
  env 0 (endTimespanGather (ts_timespan h)) = Rejects e ->
  Forall (fun op => isEndTimespan op = false) ops ->
  invoke (call_endTimespan env) rt = (rt, Rejected e) /\
  runFlow ops rt = rt /\
  outcomes ops rt = (fun _ => Rejected TimespanInProgress) <$> ops.
Proof.
  intros Hts Hnav Henv Hops. split.
  - cbn [invoke]. unfold perform. rewrite exec_endTimespan, Hts, Hnav.
    cbn. rewrite Henv. cbn. by rewrite runtime_eta.
  - induction Hops as [|op ops Hop _ [IHrun IHout]]; [done|].
    cbn. rewrite (timespan_blocks op rt); [|by rewrite Hts|done|done].
    split; [exact IHrun|]. by rewrite IHout.
Qed.

Lemma endTimespan_failure_keeps_timespan_witness :
  let boom := GatherFailure "Target closed" in
  let ops := [call_snapshot None obligingEnv;
              call_navigate (RequestorUrl "https://example.com/") None
                obligingEnv;
              call_startNavigation None InvokesRequestor;
              call_endNavigation obligingEnv;
              call_startTimespan None obligingEnv] in
  is_Some (currentTimespan (flow duringTimespan)) /\
  invoke (call_endTimespan (failingEnv boom)) duringTimespan
    = (duringTimespan, Rejected boom) /\
  runFlow ops duringTimespan = duringTimespan /\
  outcomes ops duringTimespan =
    [Rejected TimespanInProgress; Rejected TimespanInProgress;
     Rejected TimespanInProgress; Rejected TimespanInProgress;
     Rejected TimespanInProgress].
Proof.
  cbv zeta. split; [eexists; reflexivity|].
  apply (endTimespan_failure_keeps_timespan
           (failingEnv (GatherFailure "Target closed")) duringTimespan
           {| ts_timespan := TimespanOf "capture"; ts_stepFlags := None |}
           (GatherFailure "Target closed")).
  - reflexivity.
  - reflexivity.
  - reflexivity.
  - repeat constructor.
Defined.

(** ** Running a sequenced task *)

Lemma exec_bind {A B : Type} (f : A -> Task B) (t : Task A) env n this :
  exec (t ≫= f) env n this =
  andThen (exec t env n this)
    (fun a this' => exec (f a) env (n + length (trace (exec t env n this))) this').
Proof.
  change (t ≫= f) with (Task_bind f t).
  revert n this. induction t as [a|e|k IH|this' k IH|c k IH]; intros n this.
  - cbn. unfold andThen. cbn. rewrite Nat.add_0_r. destruct (exec (f a) env n this).
    reflexivity.
  - reflexivity.
  - cbn. apply IH.
  - cbn. apply IH.
  - cbn. destruct (env n c) as [x| |]; try reflexivity.
    rewrite IH. unfold andThen, called. cbn. rewrite Nat.add_succ_r.
    destruct (outcome (exec (k x) env (S n) this)); reflexivity.
Qed.

(** * Facts about the audit pipeline *)

Section AuditFacts.
Context {parser : URLParser}.

Lemma getDefaultStepName_cases (a : Artifacts) :
  getDefaultStepName a =
  match parseURL (finalDisplayedUrl (URL a)) with
  | Some url =>
      Ret (modeLabel (gatherMode (GatherContext a)) +:+ " report (" +:+
           (hostname url +:+ pathname url) +:+ ")")
  | None => Throw (TypeError_ (finalDisplayedUrl (URL a)))
  end.
Proof.
  unfold getDefaultStepName, shortenUrl, new_URL.
  destruct (parseURL _) as [url|]; [|reflexivity].
  cbn. destruct (gatherMode (GatherContext a)); reflexivity.
Qed.

Lemma stepName_cases (gatherStep : GatherStep) :
  (exists nm, stepName gatherStep = Ret nm) \/
  (exists e, stepName gatherStep = Throw e).
Proof.
  unfold stepName. destruct (truthyString _) as [nm|]; [eauto|].
  rewrite getDefaultStepName_cases. destruct (parseURL _); eauto.
Qed.

Lemma auditStep_resolved options gatherStep env n this flowStep :
  outcome (exec (auditStep options gatherStep) env n this) = Resolved flowStep ->
  audited options gatherStep
    (trace (exec (auditStep options gatherStep) env n this)) flowStep /\
  final (exec (auditStep options gatherStep) env n this) = this.
Proof.
  unfold auditStep, audited.
  destruct (stepName_cases gatherStep) as [[nm ->]|[e ->]]; [|discriminate].
  cbn. destruct (recordedOptions options gatherStep) as [recorded|]; cbn.
  - destruct (env n _) as [[res|]| |]; cbn; try discriminate.
    intros [= <-]. cbn. eauto.
  - destruct (env n _) as [cfg| |]; cbn; try discriminate.
    destruct (env (S n) _) as [[res|]| |]; cbn; try discriminate.
    intros [= <-]. cbn. eauto 6.
Qed.

Lemma auditLoop_resolved options gatherSteps acc env n this out :
  outcome (exec (auditLoop options gatherSteps acc) env n this) = Resolved out ->
  exists segments produced,
    out = (acc ++ produced)%list /\
    trace (exec (auditLoop options gatherSteps acc) env n this)
      = concat segments /\
    final (exec (auditLoop options gatherSteps acc) env n this) = this /\
    Forall3 (audited options) gatherSteps segments produced.
Proof.
  revert acc n this.
  induction gatherSteps as [|gatherStep rest IH]; intros acc n this; cbn -[auditStep].
  - intros [= <-]. exists [], []. rewrite app_nil_r. repeat split. constructor.
  - rewrite exec_bind. unfold andThen.
    pose proof (auditStep_resolved options gatherStep env n this) as Hstep.
    destruct (outcome (exec (auditStep options gatherStep) env n this))
      as [flowStep| |]; cbn; try discriminate.
    destruct (Hstep flowStep eq_refl) as [Haud Hfin]. rewrite Hfin.
    intros Hout. destruct (IH _ _ _ Hout) as (segments & produced & -> & Htr & Hfin' & Hall).
    exists (trace (exec (auditStep options gatherStep) env n this) :: segments),
           (flowStep :: produced).
    rewrite <- app_assoc. cbn. rewrite Htr. repeat split; [exact Hfin'|].
    constructor; assumption.
Qed.

Lemma auditGatherSteps_resolved gatherSteps options env n this result :
  outcome (exec (auditGatherSteps gatherSteps options) env n this)
    = Resolved result ->
  exists first url segments,
    head gatherSteps = Some first /\
    parseURL (finalDisplayedUrl (URL (artifacts first))) = Some url /\
    fr_name result =
      match truthyString (ao_name options) with
      | Some n => n
      | None => "User flow (" +:+ hostname url +:+ ")"
      end /\
    trace (exec (auditGatherSteps gatherSteps options) env n this)
      = concat segments /\
    final (exec (auditGatherSteps gatherSteps options) env n this) = this /\
    Forall3 (audited options) gatherSteps segments (steps result).
Proof.
  destruct gatherSteps as [|first rest]; [discriminate|].
  unfold auditGatherSteps. rewrite exec_bind. unfold andThen.
  pose proof (auditLoop_resolved options (first :: rest) [] env n this) as Hloop.
  destruct (outcome (exec (auditLoop options (first :: rest) []) env n this))
    as [flowSteps| |]; try discriminate.
  destruct (Hloop flowSteps eq_refl) as (segments & produced & -> & Htr & Hfin & Hall).
  unfold new_URL.
  destruct (parseURL (finalDisplayedUrl (URL (artifacts first)))) as [url|] eqn:Hurl;
    cbn; [|discriminate].
  intros [= <-]. exists first, url, segments. cbn.
  rewrite app_nil_r. repeat split; assumption.
Qed.

(** On a run that resolved, the [i]-th step of the result carries the name
    that [stepName] gives the [i]-th gather step. *)
Lemma resolved_step_name gatherSteps options env n this result i gatherStep :
  outcome (exec (auditGatherSteps gatherSteps options) env n this)
    = Resolved result ->
  gatherSteps !! i = Some gatherStep ->
  exists flowStep,
    steps result !! i = Some flowStep /\
    stepName gatherStep = Ret (fs_name flowStep).
Proof.
  intros Hrun Hi.
  destruct (auditGatherSteps_resolved _ _ _ _ _ _ Hrun)
    as (first & url & segments & _ & _ & _ & _ & _ & Hall).
  destruct (Forall3_lookup_l _ _ _ _ _ _ Hall Hi)
    as (segment & flowStep & _ & Hfs & Hname & _).
  eauto.
Qed.

Lemma Ret_inj {A : Type} (a b : A) : @Ret A a = Ret b -> a = b.
Proof. intros [= ->]. reflexivity. Qed.

Lemma audited_names options options' gatherSteps segs fss segs' fss' :
  Forall3 (audited options) gatherSteps segs fss ->
  Forall3 (audited options') gatherSteps segs' fss' ->
  fs_name <$> fss' = fs_name <$> fss.
Proof.
  intros Hall. revert segs' fss'.
  induction Hall as [|gatherStep segment flowStep rest segs fss [Hname _] _ IH];
    intros segs' fss' Hall';
    inversion Hall' as [|? ? ? ? ? ? [Hname' _] Hrest]; subst; [reflexivity|].
  cbn. f_equal; [|eapply IH; eassumption].
  rewrite Hname in Hname'. apply Ret_inj in Hname'. congruence.
Qed.

Lemma resolved_step_names gatherSteps options env n this result
  options' env' n' this' result' :
  outcome (exec (auditGatherSteps gatherSteps options) env n this)
    = Resolved result ->
  outcome (exec (auditGatherSteps gatherSteps options') env' n' this')
    = Resolved result' ->
  fs_name <$> steps result' = fs_name <$> steps result.
Proof.
  intros Hrun Hrun'.
  destruct (auditGatherSteps_resolved _ _ _ _ _ _ Hrun)
    as (_ & _ & segments & _ & _ & _ & _ & _ & Hall).
  destruct (auditGatherSteps_resolved _ _ _ _ _ _ Hrun')
    as (_ & _ & segments' & _ & _ & _ & _ & _ & Hall').
  eapply audited_names; eassumption.
Qed.

(** C5: on a run of [auditGatherSteps] that resolves, a gather step whose
    runner options are absent from the registry is audited with options
    rebuilt on the spot: [initializeConfig] is called with the step's gather
    mode, the flow-level config and the step's stored flags, and
    [Runner.audit] receives the config it answered together with an empty
    cache.  The name recorded for the step is the one [stepName] computes from
    the step alone, so any other resolved run over the same steps, whatever
    its registry, records the same names. *)
Theorem reaudit_rebuilds_dropped_options
  gatherSteps options env n this result i gatherStep :
  outcome (exec (auditGatherSteps gatherSteps options) env n this)
    = Resolved result ->
  gatherSteps !! i = Some gatherStep ->
  recordedOptions options gatherStep = None ->
  exists segments cfg res flowStep,
    trace (exec (auditGatherSteps gatherSteps options) env n this)
      = concat segments /\
    length segments = length gatherSteps /\
    segments !! i =
      Some [Called (initializeConfig
                      (gatherMode (GatherContext (artifacts gatherStep)))
                      (ao_config options) (stepFlags gatherStep))
              (Fulfils cfg);
            Called (Runner_audit (artifacts gatherStep)
                      {| config := cfg; computedCache := ∅ |})
              (Fulfils (Some res))] /\
    steps result !! i = Some flowStep /\
    fs_lhr flowStep = lhr res /\
    stepName gatherStep = Ret (fs_name flowStep) /\
    forall options' env' n' this' result',
      outcome (exec (auditGatherSteps gatherSteps options') env' n' this')
        = Resolved result' ->
      fs_name <$> steps result' = fs_name <$> steps result.
Proof.
  intros Hrun Hi Habsent.
  destruct (auditGatherSteps_resolved _ _ _ _ _ _ Hrun)
    as (first & url & segments & _ & _ & _ & Htrace & _ & Hall).
  destruct (Forall3_lookup_l _ _ _ _ _ _ Hall Hi)
    as (segment & flowStep & Hseg & Hfs & Hname & res & Hlhr & Hcalls).
  rewrite Habsent in Hcalls. destruct Hcalls as [cfg ->].
  exists segments, cfg, res, flowStep.
  repeat split; try assumption.
  - symmetry. eapply Forall3_length_lm. exact Hall.
  - intros options' env' n' this' result' Hrun'.
    eapply resolved_step_names; eassumption.
Qed.

(** C6: [auditGatherSteps] on the empty list rejects with the error of an
    empty flow; it calls no collaborator, leaves the session alone and
    produces no result. *)
Theorem auditGatherSteps_empty options env n this :
  exec (auditGatherSteps [] options) env n this =
  {| trace := []; final := this; outcome := Rejected EmptyFlow |}.
Proof. reflexivity. Qed.

(** C7: on a run that resolves, a gather step without a name flag is
    recorded under the label of its gather mode, [report (], the hostname and
    the pathname of its final displayed URL, and [)]: nothing else of the URL
    takes part.  On host [example.com] with path [/] the three modes give
    [Navigation report (example.com/)], [Timespan report (example.com/)] and
    [Snapshot report (example.com/)]. *)
Theorem default_step_name
  gatherSteps options env n this result i gatherStep :
  outcome (exec (auditGatherSteps gatherSteps options) env n this)
    = Resolved result ->
  gatherSteps !! i = Some gatherStep ->
  stepFlags gatherStep ≫= name = None ->
  exists url flowStep,
    parseURL (finalDisplayedUrl (URL (artifacts gatherStep))) = Some url /\
    steps result !! i = Some flowStep /\
    fs_name flowStep =
      modeLabel (gatherMode (GatherContext (artifacts gatherStep)))
      +:+ " report (" +:+ (hostname url +:+ pathname url) +:+ ")" /\
    (hostname url = "example.com" -> pathname url = "/" ->
     fs_name flowStep =
       match gatherMode (GatherContext (artifacts gatherStep)) with
       | navigationMode => "Navigation report (example.com/)"
       | timespanMode => "Timespan report (example.com/)"
       | snapshotMode => "Snapshot report (example.com/)"
       end).
Proof.
  intros Hrun Hi Hnoname.
  destruct (resolved_step_name _ _ _ _ _ _ _ _ Hrun Hi) as (flowStep & Hfs & Hname).
  unfold stepName in Hname. rewrite Hnoname in Hname. cbn in Hname.
  rewrite getDefaultStepName_cases in Hname.
  destruct (parseURL _) as [url|]; [|discriminate].
  apply Ret_inj in Hname. exists url, flowStep.
  repeat split; try done.
  intros Hhost Hpath. rewrite <- Hname, Hhost, Hpath.
  destruct (gatherMode _); reflexivity.
Qed.

(** C8, amended: on a run over a non-empty list that resolves, the name of
    the flow result is the session-level name when one is given and is not
    the empty string; without a name, or with an empty one, it is
    [User flow (], the hostname of the first step's final displayed URL,
    [)]. *)
Theorem flow_name_of_result first rest options env n this result :
  outcome (exec (auditGatherSteps (first :: rest) options) env n this)
    = Resolved result ->
  exists url,
    parseURL (finalDisplayedUrl (URL (artifacts first))) = Some url /\
    fr_name result =
      match ao_name options with
      | Some given =>
          if decide (given = "") then "User flow (" +:+ hostname url +:+ ")"
          else given
      | None => "User flow (" +:+ hostname url +:+ ")"
      end.
Proof.
  intros Hrun.
  destruct (auditGatherSteps_resolved _ _ _ _ _ _ Hrun)
    as (first' & url & segments & [= <-] & Hurl & Hname & _).
  exists url. split; [exact Hurl|]. rewrite Hname.
  unfold truthyString. destruct (ao_name options) as [given|]; [|reflexivity].
  destruct (decide (given = "")); reflexivity.
Qed.

(** C10: a step whose name flag is the empty string is named as the same
    step without a name flag is: [stepName] falls back on the generated
    default, and a run that resolves records the step under that default. *)
Theorem empty_name_flag_gets_default
  gatherSteps options env n this result i gatherStep :
  outcome (exec (auditGatherSteps gatherSteps options) env n this)
    = Resolved result ->
  gatherSteps !! i = Some gatherStep ->
  stepFlags gatherStep ≫= name = Some "" ->
  stepName gatherStep = stepName (withoutName gatherStep) /\
  stepName gatherStep = getDefaultStepName (artifacts gatherStep) /\
  exists url flowStep,
    parseURL (finalDisplayedUrl (URL (artifacts gatherStep))) = Some url /\
    steps result !! i = Some flowStep /\
    fs_name flowStep =
      modeLabel (gatherMode (GatherContext (artifacts gatherStep)))
      +:+ " report (" +:+ (hostname url +:+ pathname url) +:+ ")".
Proof.
  intros Hrun Hi Hempty.
  assert (Hdefault : stepName gatherStep = getDefaultStepName (artifacts gatherStep)).
  { unfold stepName. rewrite Hempty. reflexivity. }
  split; [|split; [exact Hdefault|]].
  - rewrite Hdefault. unfold stepName, withoutName. cbn.
    destruct (stepFlags gatherStep); reflexivity.
  - destruct (resolved_step_name _ _ _ _ _ _ _ _ Hrun Hi)
      as (flowStep & Hfs & Hname).
    rewrite Hdefault, getDefaultStepName_cases in Hname.
    destruct (parseURL _) as [url|]; [|discriminate].
    apply Ret_inj in Hname. exists url, flowStep. done.
Qed.

End AuditFacts.

Lemma reaudit_rebuilds_dropped_options_witness :
  resolvedNames (sampleAudit threeSteps optionsWithoutTimespan) =
    Some ["Navigation report (example.com/)";
                  "Timespan report (example.com/)";
                  "Snapshot report (example.com/)"] /\
  threeSteps !! 1 = Some timespanStep /\
  recordedOptions optionsWithoutTimespan timespanStep = None /\
  exists segments cfg res,
    trace (sampleAudit threeSteps optionsWithoutTimespan) = concat segments /\
    segments !! 1 =
      Some [Called (initializeConfig timespanMode (Some (ConfigJsonOf "flow"))
                      None) (Fulfils cfg);
            Called (Runner_audit
                      (sampleArtifacts timespanMode "https://example.com/")
                      {| config := cfg; computedCache := ∅ |})
              (Fulfils (Some res))].
Proof.
  cbv zeta. split; [reflexivity|]. split; [reflexivity|]. split; [reflexivity|].
  destruct (@reaudit_rebuilds_dropped_options sampleParser threeSteps
              optionsWithoutTimespan obligingEnv 0
              (new_UserFlow samplePage None) _ 1 _ eq_refl eq_refl eq_refl)
    as (segments & cfg & res & flowStep & Htrace & _ & Hseg & _).
  exists segments, cfg, res. split; [exact Htrace|exact Hseg].
Defined.

Lemma default_step_name_witness :
  resolvedNames (sampleAudit threeSteps (optionsNamed None)) =
    Some ["Navigation report (example.com/)";
                  "Timespan report (example.com/)";
                  "Snapshot report (example.com/)"] /\
  exists url flowStep,
    sampleParseURL "https://example.com/?utm=1#top" = Some url /\
    hostname url = "example.com" /\ pathname url = "/" /\
    search url = "?utm=1" /\ hash url = "#top" /\
    fs_name flowStep = "Navigation report (example.com/)".
Proof.
  split; [reflexivity|].
  destruct (@default_step_name sampleParser threeSteps (optionsNamed None)
              obligingEnv 0 (new_UserFlow samplePage None) _ 0 _
              eq_refl eq_refl eq_refl)
    as (url & flowStep & Hurl & _ & _ & Hexample).
  exists url, flowStep. split; [exact Hurl|].
  injection Hurl as <-. repeat split. apply Hexample; reflexivity.
Defined.

(** C8 as stated fails: a session-level name that is given, and empty, is
    not the name of the flow result. *)
Lemma empty_flow_name_is_replaced :
  exists result,
    outcome (sampleAudit threeSteps (optionsNamed (Some ""))) = Resolved result /\
    ao_name (optionsNamed (Some "")) = Some "" /\
    fr_name result = "User flow (example.com)".
Proof. eexists. repeat split. Qed.

Lemma flow_name_of_result_witness :
  (exists result,
     outcome (sampleAudit threeSteps (optionsNamed (Some "Checkout")))
       = Resolved result /\
     fr_name result = "Checkout") /\
  (exists result,
     outcome (sampleAudit threeSteps (optionsNamed None)) = Resolved result /\
     fr_name result = "User flow (example.com)").
Proof.
  split; eexists; (split; [reflexivity|]).
  - destruct (@flow_name_of_result sampleParser navigationStep
                [timespanStep; snapshotStep]
                (optionsNamed (Some "Checkout")) obligingEnv 0
                (new_UserFlow samplePage None) _ eq_refl)
      as (url & _ & Hname).
    exact Hname.
  - destruct (@flow_name_of_result sampleParser navigationStep
                [timespanStep; snapshotStep] (optionsNamed None)
                obligingEnv 0 (new_UserFlow samplePage None) _ eq_refl)
      as (url & Hurl & Hname).
    injection Hurl as <-. exact Hname.
Defined.

Lemma empty_name_flag_gets_default_witness :
  resolvedNames (sampleAudit stepsWithEmptyName (optionsNamed None)) =
    Some ["Landing page"; "Snapshot report (example.com/)"] /\
  exists gatherStep,
    stepsWithEmptyName !! 1 = Some gatherStep /\
    stepFlags gatherStep ≫= name = Some "" /\
    @stepName sampleParser gatherStep
      = @stepName sampleParser (withoutName gatherStep).
Proof.
  split; [reflexivity|]. eexists. split; [reflexivity|]. split; [reflexivity|].
  exact (proj1 (@empty_name_flag_gets_default sampleParser stepsWithEmptyName
                  (optionsNamed None) obligingEnv 0
                  (new_UserFlow samplePage None) _ 1 _
                  eq_refl eq_refl eq_refl)).
Defined.

(** * More facts about the audit pipeline *)

Section MoreAuditFacts.
Context {parser : URLParser}.

Lemma stepName_throws gatherStep e :
  stepName gatherStep = Throw e ->
  parseURL (finalDisplayedUrl (URL (artifacts gatherStep))) = None /\
  e = TypeError_ (finalDisplayedUrl (URL (artifacts gatherStep))).
Proof.
  unfold stepName. destruct (truthyString _); [discriminate|].
  rewrite getDefaultStepName_cases.
  destruct (parseURL _); [discriminate|]. intros [= <-]. done.
Qed.

Ltac give_event :=
  lazymatch goal with
  | |- exists c : Call, Some (Called ?c0 _) = _ => exists c0; reflexivity
  | |- exists (stepname : string) (ro : RunnerOptions), _ =>
      do 2 eexists; split; [reflexivity|]; split; reflexivity
  end.

Ltac step_events Hrec :=
  repeat (apply Forall_cons; split; [cbn; rewrite ?Hrec; cbn; done|]);
  apply Forall_nil; done.

(** One turn of the loop, however it ends. *)
Lemma auditStep_run options gatherStep env n this :
  let r := exec (auditStep options gatherStep) env n this in
  Forall (stepEvent options gatherStep) (trace r) /\
  final r = this /\
  forall e, outcome r = Rejected e ->
    (stepName gatherStep = Throw e /\ trace r = []) \/
    (exists stepname ro,
       stepName gatherStep = Ret stepname /\
       e = stepDidNotReturn stepname /\
       last (trace r) = Some (Called (Runner_audit (artifacts gatherStep) ro)
                                (Fulfils None))) \/
    (exists c, last (trace r) = Some (Called c (Rejects e))).
Proof.
  unfold auditStep, stepDidNotReturn.
  destruct (stepName_cases gatherStep) as [[nm Hnm]|[e' He']].
  2: { rewrite He'. cbn. repeat split; [constructor|].
       intros e [= <-]. left. done. }
  rewrite Hnm. cbn.
  destruct (recordedOptions options gatherStep) as [recorded|] eqn:Hrec; cbn.
  - destruct (env n _) as [[res|]|rej|]; cbn;
      (split; [step_events Hrec|]); (split; [reflexivity|]);
      intros err; try discriminate; intros [= <-];
      right; [left|right]; give_event.
  - destruct (env n _) as [cfg|rej|]; cbn.
    + destruct (env (S n) _) as [[res|]|rej|]; cbn;
        (split; [step_events Hrec|]); (split; [reflexivity|]);
        intros err; try discriminate; intros [= <-];
        right; [left|right]; give_event.
    + split; [step_events Hrec|].
      split; [reflexivity|]. intros err [= <-]. right; right. give_event.
    + split; [step_events Hrec|].
      split; [reflexivity|]. intros err; discriminate.
Qed.

Lemma last_app_cons {A : Type} (l l' : list A) (x : A) :
  last l' = Some x -> last (l ++ l') = Some x.
Proof. intros H. rewrite last_app, H. reflexivity. Qed.

Lemma auditLoop_run options gatherSteps acc env n this :
  let r := exec (auditLoop options gatherSteps acc) env n this in
  Forall (fun ev => exists gatherStep,
            gatherStep ∈ gatherSteps /\ stepEvent options gatherStep ev)
         (trace r) /\
  final r = this /\
  forall e, outcome r = Rejected e ->
    exists gatherStep, gatherStep ∈ gatherSteps /\
      ((stepName gatherStep = Throw e) \/
       (exists stepname ro,
          stepName gatherStep = Ret stepname /\
          e = stepDidNotReturn stepname /\
          last (trace r) = Some (Called (Runner_audit (artifacts gatherStep) ro)
                                   (Fulfils None))) \/
       (exists c, last (trace r) = Some (Called c (Rejects e)))).
Proof.
  revert acc n this.
  induction gatherSteps as [|gatherStep rest IH]; intros acc n this;
    cbn -[auditStep].
  { repeat split; [constructor|discriminate]. }
  rewrite exec_bind. unfold andThen.
  destruct (auditStep_run options gatherStep env n this) as (Hev & Hfin & Hrej).
  assert (Hev' : Forall (fun ev => exists s, s ∈ gatherStep :: rest /\
                                             stepEvent options s ev)
                   (trace (exec (auditStep options gatherStep) env n this))).
  { eapply Forall_impl; [exact Hev|]. intros ev H. exists gatherStep.
    split; [left|exact H]. }
  destruct (outcome (exec (auditStep options gatherStep) env n this))
    as [flowStep|e'|] eqn:Hout; cbn.
  - rewrite Hfin.
    destruct (IH (acc ++ [flowStep])%list
                (n + length (trace (exec (auditStep options gatherStep) env n this)))
                this) as (Hev2 & Hfin2 & Hrej2).
    split; [|split; [exact Hfin2|]].
    + apply Forall_app. split; [exact Hev'|].
      eapply Forall_impl; [exact Hev2|]. intros ev (s & Hs & H).
      exists s. split; [by right|exact H].
    + intros e He. destruct (Hrej2 e He) as (s & Hs & Hcase).
      exists s. split; [by right|].
      destruct Hcase as [H|[(nm & ro & H1 & H2 & H3)|[c H]]].
      * by left.
      * right; left. exists nm, ro. repeat split; try done.
        by apply last_app_cons.
      * right; right. exists c. by apply last_app_cons.
  - split; [exact Hev'|]. split; [exact Hfin|].
    intros e [= <-]. exists gatherStep. split; [left|].
    destruct (Hrej e' eq_refl) as [[H _]|[H|H]]; auto.
  - split; [exact Hev'|]. split; [exact Hfin|]. discriminate.
Qed.


(** X7: every rejection of [auditGatherSteps] is of one of four kinds: the
    list was empty (and nothing was called); the URL of a step could not be
    parsed where it was needed; [Runner.audit] answered a step with no
    result, and the error names that step by its resolved name; or a
    collaborator rejected, and the error is its own.  In the last two cases
    the failing call is the last one made: no later step is audited. *)
Theorem auditGatherSteps_rejection_kinds gatherSteps options env n this e :
  outcome (exec (auditGatherSteps gatherSteps options) env n this)
    = Rejected e ->
  auditFailure gatherSteps
    (trace (exec (auditGatherSteps gatherSteps options) env n this)) e.
Proof.
  destruct gatherSteps as [|first rest].
  { cbn. intros [= <-]. by apply fails_empty. }
  unfold auditGatherSteps. rewrite exec_bind. unfold andThen.
  destruct (auditLoop_run options (first :: rest) [] env n this)
    as (_ & Hfin & Hrej).
  destruct (outcome (exec (auditLoop options (first :: rest) []) env n this))
    as [flowSteps|e'|] eqn:Hout; cbn; [| |discriminate].
  - unfold new_URL.
    destruct (parseURL (finalDisplayedUrl (URL (artifacts first)))) eqn:Hurl;
      cbn; [discriminate|].
    intros [= <-]. apply (fails_on_url _ _ _ first); [left|exact Hurl|done].
  - intros [= <-]. destruct (Hrej e' eq_refl) as (s & Hs & Hcase).
    destruct Hcase as [H|[(nm & ro & H1 & H2 & H3)|[c H]]].
    + destruct (stepName_throws _ _ H) as [Hurl ->].
      by apply (fails_on_url _ _ _ s).
    + by apply (fails_without_result _ _ _ s nm ro).
    + by apply (fails_in_collaborator _ _ _ c).
Qed.

(** X8: [new URL] is applied to the first step's URL after the loop,
    whether or not a flow name was given: when that URL cannot be parsed the
    run does not resolve, whatever the names, the registry and the answers
    of the collaborators. *)
Theorem unparsable_first_url_never_resolves
  first rest options env n this result :
  parseURL (finalDisplayedUrl (URL (artifacts first))) = None ->
  outcome (exec (auditGatherSteps (first :: rest) options) env n this)
    <> Resolved result.
Proof.
  intros Hurl Hout.
  destruct (auditGatherSteps_resolved _ _ _ _ _ _ Hout)
    as (first' & url & _ & [= <-] & Hurl' & _). congruence.
Qed.



Lemma auditGatherSteps_run gatherSteps options env n this :
  Forall (fun ev => exists gatherStep,
            gatherStep ∈ gatherSteps /\ stepEvent options gatherStep ev)
         (trace (exec (auditGatherSteps gatherSteps options) env n this)) /\
  final (exec (auditGatherSteps gatherSteps options) env n this) = this.
Proof.
  destruct gatherSteps as [|first rest]; [by split|].
  unfold auditGatherSteps. rewrite exec_bind. unfold andThen.
  destruct (auditLoop_run options (first :: rest) [] env n this)
    as (Hev & Hfin & _).
  destruct (outcome (exec (auditLoop options (first :: rest) []) env n this));
    cbn; [|done..].
  unfold new_URL. destruct (parseURL _); cbn; rewrite app_nil_r; done.
Qed.

(** X10: a run of [auditGatherSteps], however it ends, calls nothing but
    [initializeConfig] and [Runner.audit], each time for a step of the list:
    the config of a step that has no recorded options, from its gather mode,
    the flow config and its flags; the audit of a step's artifacts, with the
    recorded options or with an empty cache.  The session is not touched. *)
Theorem auditGatherSteps_only_configures_and_audits
  gatherSteps options env n this :
  Forall (fun ev => exists gatherStep,
            gatherStep ∈ gatherSteps /\ stepEvent options gatherStep ev)
         (trace (exec (auditGatherSteps gatherSteps options) env n this)) /\
  final (exec (auditGatherSteps gatherSteps options) env n this) = this.
Proof. apply auditGatherSteps_run. Qed.

(** ** The pipeline and the session *)

Lemma stateless_bind {A B : Type} (t : Task A) (f : A -> Task B) :
  stateless t -> (forall a, stateless (f a)) -> stateless (t ≫= f).
Proof.
  intros Ht Hf. change (t ≫= f) with (Task_bind f t).
  induction Ht as [a|e|c k _ IH]; cbn; [apply Hf|constructor|].
  constructor. exact IH.
Qed.

Lemma exec_stateless {A : Type} (t : Task A) env n this this' :
  stateless t ->
  trace (exec t env n this') = trace (exec t env n this) /\
  outcome (exec t env n this') = outcome (exec t env n this) /\
  final (exec t env n this) = this.
Proof.
  intros Ht. revert n. induction Ht as [a|e|c k _ IH]; intros n; cbn; [done..|].
  destruct (env n c) as [x| |]; cbn; [|done..].
  destruct (IH x (S n)) as (-> & -> & ->). done.
Qed.

Lemma stepName_stateless gatherStep : stateless (stepName gatherStep).
Proof.
  destruct (stepName_cases gatherStep) as [[nm ->]|[e ->]]; constructor.
Qed.

Lemma auditStep_stateless options gatherStep :
  stateless (auditStep options gatherStep).
Proof.
  unfold auditStep.
  apply stateless_bind; [apply stepName_stateless|]. intros stepname.
  apply stateless_bind.
  - destruct (recordedOptions options gatherStep); [constructor|].
    apply stateless_bind; [|intros cfg; constructor].
    constructor. intros cfg. constructor.
  - intros ro. apply stateless_bind.
    + constructor. intros r. constructor.
    + intros [res|]; constructor.
Qed.

Lemma auditLoop_stateless options gatherSteps acc :
  stateless (auditLoop options gatherSteps acc).
Proof.
  revert acc. induction gatherSteps as [|gatherStep rest IH]; intros acc; cbn.
  - constructor.
  - apply stateless_bind; [apply auditStep_stateless|]. intros step. apply IH.
Qed.

Lemma auditGatherSteps_stateless gatherSteps options :
  stateless (auditGatherSteps gatherSteps options).
Proof.
  destruct gatherSteps as [|first rest]; [constructor|].
  unfold auditGatherSteps.
  apply stateless_bind; [apply auditLoop_stateless|]. intros flowSteps.
  apply stateless_bind; [|intros url; constructor].
  unfold new_URL. destruct (parseURL _); constructor.
Qed.


Lemma exec_generateReport render env n this :
  trace (exec (generateReport render) env n this)
    = trace (exec createFlowResult env n this) /\
  final (exec (generateReport render) env n this)
    = final (exec createFlowResult env n this) /\
  outcome (exec (generateReport render) env n this) =
    match outcome (exec createFlowResult env n this) with
    | Resolved flowResult => Resolved (render flowResult)
    | Rejected e => Rejected e
    | Pending => Pending
    end.
Proof.
  unfold generateReport. rewrite exec_bind. unfold andThen.
  destruct (outcome (exec createFlowResult env n this)); cbn;
    rewrite ?app_nil_r; done.
Qed.

Lemma registered_runs_recorded this env n :
  registered this ->
  Forall (auditWithRecorded this) (trace (exec createFlowResult env n this)).
Proof.
  intros Hreg. cbn.
  destruct (auditGatherSteps_run (_gatherSteps this) (sessionAuditOptions this)
              env n this) as [Hev _].
  eapply Forall_impl; [exact Hev|].
  intros [c ans] (gatherStep & Hin & Hstep).
  apply list_elem_of_lookup in Hin as [i Hi].
  destruct (Hreg i gatherStep Hi) as [Href [ro Hro]].
  assert (Hrec : recordedOptions (sessionAuditOptions this) gatherStep = Some ro).
  { unfold recordedOptions. cbn. by rewrite Href. }
  destruct c as [? ? ? ?|? ? ?|?|? ? ?|mode configJson flags|a used];
    unfold stepEvent in Hstep; try done.
  - destruct Hstep as [Hnone _]. congruence.
  - destruct Hstep as [-> Hopt]. rewrite Hrec in Hopt. subst used.
    exists gatherStep. split; [by eapply list_elem_of_lookup_2|].
    split; [done|]. by rewrite Href.
Qed.

(** X11: on a session reached from a new one, [createFlowResult] and
    [generateReport] call [Runner.audit] and nothing else, on the artifacts
    of a recorded step and with the runner options the registry holds for
    that step; they never call [initializeConfig], and they leave the session
    as it is.  [generateReport] makes the calls of [createFlowResult] and
    renders its result. *)
Theorem live_session_is_audited_with_recorded_options
  ops page options env n render :
  let this := flow (runFlow ops (new_Runtime page options)) in
  Forall (auditWithRecorded this) (trace (exec createFlowResult env n this)) /\
  Forall (auditWithRecorded this)
    (trace (exec (generateReport render) env n this)) /\
  final (exec createFlowResult env n this) = this /\
  final (exec (generateReport render) env n this) = this /\
  outcome (exec (generateReport render) env n this) =
    match outcome (exec createFlowResult env n this) with
    | Resolved flowResult => Resolved (render flowResult)
    | Rejected e => Rejected e
    | Pending => Pending
    end.
Proof.
  intros this.
  assert (Hreg : registered this).
  { apply runFlow_registered; [apply new_Runtime_consistent|].
    intros j s Hj. discriminate. }
  destruct (exec_generateReport render env n this) as (Htr & Hfin & Hout).
  assert (Hfinal : final (exec createFlowResult env n this) = this).
  { cbn. apply auditGatherSteps_run. }
  rewrite Htr, Hfin, Hout, Hfinal.
  repeat split; by apply registered_runs_recorded.
Qed.

(** X12: [createFlowResult], [generateReport] and [createArtifactsJson]
    look at neither slot: with a navigation or a timespan in progress they
    make the same calls and end the same way as without, and leave the slots
    as they are. *)
Theorem exports_ignore_the_slots this nav ts env n render :
  let busy := set_currentNavigation nav (set_currentTimespan ts this) in
  (trace (exec createFlowResult env n busy)
     = trace (exec createFlowResult env n this) /\
   outcome (exec createFlowResult env n busy)
     = outcome (exec createFlowResult env n this) /\
   final (exec createFlowResult env n busy) = busy) /\
  (trace (exec (generateReport render) env n busy)
     = trace (exec (generateReport render) env n this) /\
   outcome (exec (generateReport render) env n busy)
     = outcome (exec (generateReport render) env n this) /\
   final (exec (generateReport render) env n busy) = busy) /\
  (trace (exec createArtifactsJson env n busy) = [] /\
   outcome (exec createArtifactsJson env n busy)
     = outcome (exec createArtifactsJson env n this) /\
   final (exec createArtifactsJson env n busy) = busy).
Proof.
  intros busy.
  assert (Hflow :
    trace (exec createFlowResult env n busy)
      = trace (exec createFlowResult env n this) /\
    outcome (exec createFlowResult env n busy)
      = outcome (exec createFlowResult env n this) /\
    final (exec createFlowResult env n busy) = busy).
  { cbn.
    destruct (exec_stateless
                (auditGatherSteps (_gatherSteps this) (sessionAuditOptions this))
                env n this busy (auditGatherSteps_stateless _ _))
      as (Htr & Hout & _).
    destruct (exec_stateless
                (auditGatherSteps (_gatherSteps this) (sessionAuditOptions this))
                env n busy busy (auditGatherSteps_stateless _ _))
      as (_ & _ & Hfin).
    done. }
  split; [exact Hflow|]. split; [|done].
  destruct Hflow as (Htr & Hout & Hfin).
  destruct (exec_generateReport render env n this) as (-> & _ & ->).
  destruct (exec_generateReport render env n busy) as (-> & -> & ->).
  rewrite Htr, Hout, Hfin. done.
Qed.

Lemma sameContent_stepName gatherStep revived :
  sameContent gatherStep revived -> stepName revived = stepName gatherStep.
Proof.
  intros [Hart Hflags]. unfold stepName. by rewrite Hart, Hflags.
Qed.

Lemma audited_names_of_copies options options' gatherSteps revived
  segs fss segs' fss' :
  Forall2 sameContent gatherSteps revived ->
  Forall3 (audited options) gatherSteps segs fss ->
  Forall3 (audited options') revived segs' fss' ->
  fs_name <$> fss' = fs_name <$> fss.
Proof.
  intros Hsame. revert segs fss segs' fss'.
  induction Hsame as [|gatherStep copy rest copies Hcopy _ IH];
    intros segs fss segs' fss' Hall Hall';
    inversion Hall as [|? ? ? ? ? ? [Hname _] Hrest]; subst;
    inversion Hall' as [|? ? ? ? ? ? [Hname' _] Hrest']; subst;
    [reflexivity|].
  cbn. f_equal; [|eapply IH; eassumption].
  rewrite (sameContent_stepName _ _ Hcopy), Hname in Hname'.
  apply Ret_inj in Hname'. congruence.
Qed.

(** X13: what [createArtifactsJson] saves is enough to get the names back.
    Auditing copies of the saved steps (same artifacts and flags, any
    identity) under the saved name, with any config and any registry, gives
    the flow name and the step names that [createFlowResult] gives on the
    session, whenever both resolve. *)
Theorem saved_artifacts_keep_the_names
  this saved revived cfg registry env n env' n' this' result result' :
  outcome (exec createArtifactsJson env n this) = Resolved saved ->
  Forall2 sameContent (fa_gatherSteps saved) revived ->
  outcome (exec createFlowResult env n this) = Resolved result ->
  outcome (exec (auditGatherSteps revived
                   {| ao_name := fa_name saved; ao_config := cfg;
                      gatherStepRunnerOptions := registry |})
             env' n' this') = Resolved result' ->
  fr_name result' = fr_name result /\
  fs_name <$> steps result' = fs_name <$> steps result.
Proof.
  intros [= <-] Hsame Hrun Hrun'. cbn in *.
  destruct (auditGatherSteps_resolved _ _ _ _ _ _ Hrun)
    as (first & url & segs & Hhead & Hurl & Hname & _ & _ & Hall).
  destruct (auditGatherSteps_resolved _ _ _ _ _ _ Hrun')
    as (first' & url' & segs' & Hhead' & Hurl' & Hname' & _ & _ & Hall').
  split; [|eapply audited_names_of_copies; eassumption].
  rewrite Hname, Hname'. cbn.
  destruct Hsame as [|gatherStep copy rest copies [Hart _] _]; [discriminate|].
  cbn in Hhead, Hhead'. injection Hhead as <-. injection Hhead' as <-.
  rewrite Hart, Hurl in Hurl'. by injection Hurl' as <-.
Qed.

End MoreAuditFacts.

Lemma auditGatherSteps_rejection_kinds_witness :
  let run := exec (@auditGatherSteps sampleParser threeSteps (optionsNamed None))
               envWithoutTimespanResult 0 (new_UserFlow samplePage None) in
  outcome run = Rejected (stepDidNotReturn "Timespan report (example.com/)") /\
  length (trace run) = 4 /\
  @auditFailure sampleParser threeSteps (trace run)
    (stepDidNotReturn "Timespan report (example.com/)").
Proof.
  cbv zeta. split; [reflexivity|]. split; [reflexivity|].
  apply (@auditGatherSteps_rejection_kinds sampleParser threeSteps
           (optionsNamed None) envWithoutTimespanResult 0
           (new_UserFlow samplePage None)).
  reflexivity.
Defined.

Lemma unparsable_first_url_never_resolves_witness :
  let run := exec (@auditGatherSteps sampleParser [namedStepWithoutUrl]
                     (optionsNamed (Some "Shop")))
               obligingEnv 0 (new_UserFlow samplePage None) in
  @parseURL sampleParser "not a url" = None /\
  length (trace run) = 2 /\
  resolvedNames run = None.
Proof.
  cbv zeta. split; [reflexivity|]. split; [reflexivity|].
  unfold resolvedNames.
  destruct (outcome _) as [result| |] eqn:Hout; [|reflexivity..].
  destruct (@unparsable_first_url_never_resolves sampleParser
              namedStepWithoutUrl [] (optionsNamed (Some "Shop")) obligingEnv 0
              (new_UserFlow samplePage None) result eq_refl Hout).
Defined.


Lemma saved_artifacts_keep_the_names_witness :
  let this := flow afterOneNavigation in
  exists saved result result',
    outcome (exec createArtifactsJson obligingEnv 0 this) = Resolved saved /\
    Forall2 sameContent (fa_gatherSteps saved) [revivedNavigation] /\
    outcome (exec (@createFlowResult sampleParser) obligingEnv 0 this)
      = Resolved result /\
    outcome (exec (@auditGatherSteps sampleParser [revivedNavigation]
                     {| ao_name := fa_name saved; ao_config := None;
                        gatherStepRunnerOptions := None |})
               obligingEnv 0 (new_UserFlow samplePage None))
      = Resolved result' /\
    fr_name result' = fr_name result /\
    fs_name <$> steps result' = fs_name <$> steps result.
Proof.
  cbv zeta. do 3 eexists.
  split; [reflexivity|].
  assert (Hsame : Forall2 sameContent
                    (_gatherSteps (flow afterOneNavigation))
                    [revivedNavigation]).
  { repeat constructor. }
  split; [exact Hsame|]. split; [reflexivity|]. split; [reflexivity|].
  exact (@saved_artifacts_keep_the_names sampleParser
           (flow afterOneNavigation) _ [revivedNavigation] None None
           obligingEnv 0 obligingEnv 0 (new_UserFlow samplePage None) _ _
           eq_refl Hsame eq_refl eq_refl).
Defined.

(** * More facts about the session *)

Lemma task_operation_keeps_handle op rt :
  match op with
  | call_startNavigation _ _ | call_endNavigation _ => True
  | _ =>
      currentNavigation (flow (invoke op rt).1) = currentNavigation (flow rt) /\
      promises (invoke op rt).1 = promises rt
  end.
Proof.
  destruct op as [requestor stepFlags env|stepOptions g|env
                 |stepFlags env|env|stepFlags env]; try exact I;
    cbn [invoke]; unfold perform; cbn [fst flow promises];
    (split; [|reflexivity]).
  - rewrite exec_navigate.
    destruct (truthy (currentTimespan (flow rt))); [done|].
    destruct (truthy (currentNavigation (flow rt))); [done|].
    cbn zeta. by destruct (env 0 _).
  - rewrite exec_startTimespan.
    destruct (truthy (currentTimespan (flow rt))); [done|].
    destruct (truthy (currentNavigation (flow rt))); [done|].
    cbn zeta. by destruct (env 0 _).
  - rewrite exec_endTimespan.
    destruct (currentTimespan (flow rt)); [|done].
    destruct (truthy (currentNavigation (flow rt))); [done|].
    cbn zeta. by destruct (env 0 _).
  - rewrite exec_snapshot.
    destruct (truthy (currentTimespan (flow rt))); [done|].
    destruct (truthy (currentNavigation (flow rt))); [done|].
    cbn zeta. by destruct (env 0 _).
Qed.

Lemma invoke_handle_unfulfilled op rt :
  consistent rt -> handle_unfulfilled rt ->
  handle_unfulfilled (invoke op rt).1.
Proof.
  intros Hrt Hlive.
  pose proof (task_operation_keeps_handle op rt) as Hkeep.
  destruct op as [requestor stepFlags env|stepOptions g|env
                 |stepFlags env|env|stepFlags env];
    try (intros h; rewrite (proj1 Hkeep), (proj2 Hkeep); apply Hlive).
  - cbn [invoke]. rewrite startNavigation_cases. cbn zeta.
    destruct (truthy (currentNavigation (flow rt))) eqn:Hnav; [exact Hlive|].
    destruct (truthy (currentTimespan (flow rt))); [exact Hlive|].
    apply truthy_None in Hnav.
    destruct g as [|env].
    + intros h [= <-]. cbn. rewrite list_lookup_middle by reflexivity.
      eexists. split; [reflexivity|discriminate].
    + destruct (env 0 _); cbn [fst]; exact Hlive.
  - cbn [invoke].
    destruct (truthy (currentTimespan (flow rt))) eqn:Hts;
      [unfold endNavigation; by rewrite Hts|].
    destruct (currentNavigation (flow rt)) as [h|] eqn:Hnav;
      [|unfold endNavigation; by rewrite Hts, Hnav].
    destruct (Hlive h Hnav) as (state & Hp & Hstate).
    pose proof (proj1 (Forall_lookup _ _) (promises_from_navigate _ Hrt) _ _ Hp)
      as Hfrom.
    assert (Hlt : continueAndAwaitResult h < length (promises rt))
      by (by eapply lookup_lt_Some).
    destruct Hfrom as [page requestor cfg flags|err|]; [| |done].
    + rewrite (endNavigation_resume env rt h page requestor cfg flags Hts Hnav Hp).
      destruct (env 0 _); cbn [fst]; intros h'; cbn; [discriminate| |];
        rewrite Hnav; intros [= <-];
        rewrite list_lookup_insert_eq by exact Hlt;
        (eexists; split; [reflexivity|discriminate]).
    + unfold endNavigation. rewrite Hts, Hnav, Hp. cbn. exact Hlive.
Qed.

Lemma runFlow_handle_unfulfilled ops rt :
  consistent rt -> handle_unfulfilled rt -> handle_unfulfilled (runFlow ops rt).
Proof.
  revert rt. induction ops as [|op ops IH]; intros rt Hrt Hlive; cbn;
    [exact Hlive|].
  pose proof (invoke_consistent op rt Hrt) as Hnext.
  pose proof (invoke_handle_unfulfilled op rt Hrt Hlive) as Hlive'.
  destruct (invoke op rt) as [rt' [[]|e|]]; cbn in *; auto.
Qed.

Lemma invoke_accounting op rt :
  consistent rt -> handle_unfulfilled rt ->
  match (invoke op rt).2 with
  | Rejected _ => _gatherSteps (flow (invoke op rt).1) = _gatherSteps (flow rt)
  | Resolved _ =>
      exists pushed,
        _gatherSteps (flow (invoke op rt).1)
          = (_gatherSteps (flow rt) ++ pushed)%list /\
        length pushed = if pushes op then 1 else 0
  | Pending => True
  end.
Proof.
  intros Hrt Hlive.
  destruct op as [requestor stepFlags env|stepOptions g|env
                 |stepFlags env|env|stepFlags env]; cbn [invoke pushes];
    unfold perform; cbn [fst snd flow].
  - rewrite exec_navigate.
    destruct (truthy (currentTimespan (flow rt))); [done|].
    destruct (truthy (currentNavigation (flow rt))); [done|].
    cbn zeta. destruct (env 0 _); cbn; [|done..]. by eexists [_].
  - rewrite startNavigation_cases. cbn zeta.
    destruct (truthy (currentNavigation (flow rt))); [done|].
    destruct (truthy (currentTimespan (flow rt))); [done|].
    destruct g as [|env]; [exists []; by rewrite app_nil_r|].
    by destruct (env 0 _).
  - destruct (truthy (currentTimespan (flow rt))) eqn:Hts;
      [unfold endNavigation; by rewrite Hts|].
    destruct (currentNavigation (flow rt)) as [h|] eqn:Hnav;
      [|unfold endNavigation; by rewrite Hts, Hnav].
    destruct (Hlive h Hnav) as (state & Hp & Hstate).
    pose proof (proj1 (Forall_lookup _ _) (promises_from_navigate _ Hrt) _ _ Hp)
      as Hfrom.
    destruct Hfrom as [page requestor cfg flags|err|]; [| |done].
    + rewrite (endNavigation_resume env rt h page requestor cfg flags Hts Hnav Hp).
      destruct (env 0 _); cbn; [|done..]. by eexists [_].
    + unfold endNavigation. by rewrite Hts, Hnav, Hp.
  - rewrite exec_startTimespan.
    destruct (truthy (currentTimespan (flow rt))); [done|].
    destruct (truthy (currentNavigation (flow rt))); [done|].
    cbn zeta. destruct (env 0 _); cbn; [|done..].
    exists []. by rewrite app_nil_r.
  - rewrite exec_endTimespan.
    destruct (currentTimespan (flow rt)); [|done].
    destruct (truthy (currentNavigation (flow rt))); [done|].
    cbn zeta. destruct (env 0 _); cbn; [|done..]. by eexists [_].
  - rewrite exec_snapshot.
    destruct (truthy (currentTimespan (flow rt))); [done|].
    destruct (truthy (currentNavigation (flow rt))); [done|].
    cbn zeta. destruct (env 0 _); cbn; [|done..]. by eexists [_].
Qed.

(** X14: on a session reached from a new one, an operation that rejects
    leaves the step list as it was; [navigate], [endNavigation],
    [endTimespan] and [snapshot] push exactly one step when they resolve;
    [startNavigation] and [startTimespan] push none. *)
Theorem steps_pushed_by_an_operation ops op page options :
  let rt := runFlow ops (new_Runtime page options) in
  match (invoke op rt).2 with
  | Rejected _ => _gatherSteps (flow (invoke op rt).1) = _gatherSteps (flow rt)
  | Resolved _ =>
      exists pushed,
        _gatherSteps (flow (invoke op rt).1)
          = (_gatherSteps (flow rt) ++ pushed)%list /\
        length pushed = if pushes op then 1 else 0
  | Pending => True
  end.
Proof.
  intros rt. apply invoke_accounting.
  - apply runFlow_consistent, new_Runtime_consistent.
  - apply runFlow_handle_unfulfilled; [apply new_Runtime_consistent|].
    intros h; discriminate.
Qed.

(** X15: ending what was not started.  Without a timespan in progress
    [endTimespan] rejects with [NoTimespanInProgress], also during a
    navigation: the test for a timespan comes first.  It calls nothing and
    changes nothing.  Without a navigation in progress [endNavigation]
    rejects, with [TimespanInProgress] during a timespan and with
    [NoNavigationInProgress] otherwise, and changes nothing. *)
Theorem ending_what_was_not_started (env : Env) rt :
  (currentTimespan (flow rt) = None ->
   exec endTimespan env 0 (flow rt)
     = rejects_with NoTimespanInProgress (flow rt) /\
   invoke (call_endTimespan env) rt = (rt, Rejected NoTimespanInProgress)) /\
  (currentNavigation (flow rt) = None ->
   endNavigation env rt =
     (rt, Rejected (if truthy (currentTimespan (flow rt))
                    then TimespanInProgress else NoNavigationInProgress))).
Proof.
  split.
  - intros Hts. cbn [invoke]. unfold perform.
    rewrite !exec_endTimespan, Hts. cbn. by rewrite runtime_eta.
  - intros Hnav. unfold endNavigation. rewrite Hnav.
    by destruct (truthy (currentTimespan (flow rt))).
Qed.

Lemma ending_what_was_not_started_witness :
  invoke (call_endTimespan obligingEnv) duringNavigation
    = (duringNavigation, Rejected NoTimespanInProgress) /\
  endNavigation obligingEnv duringTimespan
    = (duringTimespan, Rejected TimespanInProgress) /\
  endNavigation obligingEnv (new_Runtime samplePage None)
    = (new_Runtime samplePage None, Rejected NoNavigationInProgress).
Proof.
  split; [|split].
  - exact (proj2 (proj1 (ending_what_was_not_started obligingEnv
                           duringNavigation) eq_refl)).
  - exact (proj2 (ending_what_was_not_started obligingEnv duringTimespan)
             eq_refl).
  - exact (proj2 (ending_what_was_not_started obligingEnv
                    (new_Runtime samplePage None)) eq_refl).
Defined.

(** X16: a timespan from start to end on a free session.  [startTimespan]
    pushes no step and keeps the capture and the flags in the slot;
    [endTimespan] ends that capture, frees the slot and pushes one step: the
    artifacts of the capture under the flags given to [startTimespan], as
    given, filed with the capture's runner options. *)
Theorem timespan_from_start_to_end stepFlags (env1 env2 : Env) rt t gatherResult :
  currentNavigation (flow rt) = None ->
  currentTimespan (flow rt) = None ->
  env1 0 (startTimespanGather (_page (flow rt)) (flowConfig (flow rt))
            stepFlags) = Fulfils t ->
  env2 0 (endTimespanGather t) = Fulfils gatherResult ->
  let started := invoke (call_startTimespan stepFlags env1) rt in
  let ended := invoke (call_endTimespan env2) started.1 in
  let pushed := {| ref := length (_gatherSteps (flow rt));
                   artifacts := gr_artifacts gatherResult;
                   stepFlags := stepFlags |} in
  started.2 = Resolved tt /\
  _gatherSteps (flow started.1) = _gatherSteps (flow rt) /\
  currentTimespan (flow started.1)
    = Some {| ts_timespan := t; ts_stepFlags := stepFlags |} /\
  ended.2 = Resolved tt /\
  currentTimespan (flow ended.1) = None /\
  currentNavigation (flow ended.1) = None /\
  _gatherSteps (flow ended.1) = (_gatherSteps (flow rt) ++ [pushed])%list /\
  _gatherStepRunnerOptions (flow ended.1) !! ref pushed
    = Some (gr_runnerOptions gatherResult).
Proof.
  intros Hnav Hts Hstart Hend started ended pushed.
  subst ended started. cbn [invoke]. unfold perform. cbn [fst snd flow].
  rewrite exec_endTimespan, !exec_startTimespan, Hts, Hnav.
  cbn [truthy]. cbn zeta. rewrite Hstart.
  cbn [final outcome currentTimespan set_currentTimespan currentNavigation
       ts_timespan ts_stepFlags].
  rewrite Hnav. cbn [truthy]. cbn zeta. rewrite Hend. cbn.
  repeat split; try done. by rewrite lookup_insert_eq.
Qed.

Lemma timespan_from_start_to_end_witness :
  let rt := new_Runtime samplePage None in
  let started := invoke (call_startTimespan None obligingEnv) rt in
  let ended := invoke (call_endTimespan obligingEnv) started.1 in
  started.2 = Resolved tt /\
  ended.2 = Resolved tt /\
  currentTimespan (flow ended.1) = None /\
  _gatherSteps (flow ended.1)
    = [{| ref := 0;
          artifacts := sampleArtifacts timespanMode "https://example.com/";
          stepFlags := None |}].
Proof.
  cbv zeta.
  destruct (timespan_from_start_to_end None obligingEnv obligingEnv
              (new_Runtime samplePage None) _ _
              eq_refl eq_refl eq_refl eq_refl)
    as (Hstarted & _ & _ & Hended & Hts & _ & Hsteps & _).
  split; [exact Hstarted|]. split; [exact Hended|].
  split; [exact Hts|exact Hsteps].
Defined.

(** X17: computing the flags of a navigation again from flags it computed
    changes nothing. *)
Theorem navigation_flags_idempotent this stepFlags :
  _getNextNavigationFlags this (Some (_getNextNavigationFlags this stepFlags))
    = _getNextNavigationFlags this stepFlags.
Proof.
  unfold _getNextNavigationFlags.
  destruct (spread stepFlags) as [nm sab dsr others]. cbn.
  destruct sab, dsr, (existsb isNavigationStep (_gatherSteps this)); reflexivity.
Qed.

(** X18: filing a step.  On a session whose steps are all filed under their
    own identity, [_addGatherStep] keeps it so: the step it pushes is found
    in the registry with the runner options of its gather result, and the
    options on record for the earlier steps are the same as before. *)
Theorem pushed_step_is_filed gatherResult flags this :
  registered this ->
  let this' := _addGatherStep gatherResult flags this in
  let pushed := {| ref := length (_gatherSteps this);
                   artifacts := gr_artifacts gatherResult;
                   stepFlags := flags |} in
  registered this' /\
  _gatherSteps this' = (_gatherSteps this ++ [pushed])%list /\
  recordedOptions (sessionAuditOptions this') pushed
    = Some (gr_runnerOptions gatherResult) /\
  forall gatherStep,
    gatherStep ∈ _gatherSteps this ->
    recordedOptions (sessionAuditOptions this') gatherStep
      = recordedOptions (sessionAuditOptions this) gatherStep.
Proof.
  intros Hreg this' pushed. split; [|split; [reflexivity|split]].
  - eapply grows_registered; [|exact Hreg]. right.
    exists gatherResult, flags. done.
  - unfold recordedOptions. cbn. by rewrite lookup_insert_eq.
  - intros gatherStep [i Hi]%list_elem_of_lookup.
    destruct (Hreg i gatherStep Hi) as [Href _].
    unfold recordedOptions. cbn. rewrite lookup_insert_ne; [done|].
    apply lookup_lt_Some in Hi. lia.
Qed.

Lemma pushed_step_is_filed_witness :
  let this := flow afterOneNavigation in
  let gatherResult := sampleGatherResult snapshotMode "https://example.com/#cart" in
  let this' := _addGatherStep gatherResult None this in
  length (_gatherSteps this) = 1 /\
  length (_gatherSteps this') = 2 /\
  registered this' /\
  recordedOptions (sessionAuditOptions this')
    {| ref := 1; artifacts := gr_artifacts gatherResult; stepFlags := None |}
    = Some (gr_runnerOptions gatherResult).
Proof.
  cbv zeta. split; [reflexivity|]. split; [reflexivity|].
  assert (Hreg : registered (flow afterOneNavigation)).
  { intros [|i] step Hi; [|discriminate Hi].
    injection Hi as <-. split; [reflexivity|]. eexists. reflexivity. }
  destruct (pushed_step_is_filed
              (sampleGatherResult snapshotMode "https://example.com/#cart")
              None (flow afterOneNavigation) Hreg)
    as (Hreg' & _ & Hfiled & _).
  split; [exact Hreg'|exact Hfiled].
Defined.

Lemma invoke_rejected op rt e :
  consistent rt -> handle_unfulfilled rt ->
  (invoke op rt).2 = Rejected e -> flow (invoke op rt).1 = flow rt.
Proof.
  intros Hrt Hlive.
  destruct op as [requestor stepFlags env|stepOptions g|env
                 |stepFlags env|env|stepFlags env]; cbn [invoke];
    unfold perform; cbn [fst snd flow].
  - rewrite exec_navigate.
    destruct (truthy (currentTimespan (flow rt))); [done|].
    destruct (truthy (currentNavigation (flow rt))); [done|].
    cbn zeta. by destruct (env 0 _).
  - rewrite startNavigation_cases. cbn zeta.
    destruct (truthy (currentNavigation (flow rt))); [done|].
    destruct (truthy (currentTimespan (flow rt))); [done|].
    destruct g as [|env]; [done|]. by destruct (env 0 _).
  - destruct (truthy (currentTimespan (flow rt))) eqn:Hts;
      [unfold endNavigation; by rewrite Hts|].
    destruct (currentNavigation (flow rt)) as [h|] eqn:Hnav;
      [|unfold endNavigation; by rewrite Hts, Hnav].
    destruct (Hlive h Hnav) as (state & Hp & Hstate).
    pose proof (proj1 (Forall_lookup _ _) (promises_from_navigate _ Hrt) _ _ Hp)
      as Hfrom.
    destruct Hfrom as [page requestor cfg flags|err|]; [| |done].
    + rewrite (endNavigation_resume env rt h page requestor cfg flags Hts Hnav Hp).
      by destruct (env 0 _).
    + unfold endNavigation. by rewrite Hts, Hnav, Hp.
  - rewrite exec_startTimespan.
    destruct (truthy (currentTimespan (flow rt))); [done|].
    destruct (truthy (currentNavigation (flow rt))); [done|].
    cbn zeta. by destruct (env 0 _).
  - rewrite exec_endTimespan.
    destruct (currentTimespan (flow rt)); [|done].
    destruct (truthy (currentNavigation (flow rt))); [done|].
    cbn zeta. by destruct (env 0 _).
  - rewrite exec_snapshot.
    destruct (truthy (currentTimespan (flow rt))); [done|].
    destruct (truthy (currentNavigation (flow rt))); [done|].
    cbn zeta. by destruct (env 0 _).
Qed.

(** X19: no operation cleans up, and none needs to.  On a session reached
    from a new one, an operation that rejects, for whatever reason, leaves
    the session object as it was: the steps, the registry and both slots. *)
Theorem rejected_operation_changes_nothing ops op page options e :
  let rt := runFlow ops (new_Runtime page options) in
  (invoke op rt).2 = Rejected e ->
  flow (invoke op rt).1 = flow rt.
Proof.
  intros rt. apply invoke_rejected.
  - apply runFlow_consistent, new_Runtime_consistent.
  - apply runFlow_handle_unfulfilled; [apply new_Runtime_consistent|].
    intros h Hh. discriminate.
Qed.

Lemma rejected_operation_changes_nothing_witness :
  let rt := runFlow [call_startNavigation None InvokesRequestor]
              (new_Runtime samplePage None) in
  let ended := invoke (call_endNavigation (failingEnv (GatherFailure "crash")))
                 rt in
  ended.2 = Rejected (GatherFailure "crash") /\
  is_Some (currentNavigation (flow rt)) /\
  flow ended.1 = flow rt.
Proof.
  cbv zeta. split; [reflexivity|]. split; [by eexists|].
  apply (rejected_operation_changes_nothing
           [call_startNavigation None InvokesRequestor]
           (call_endNavigation (failingEnv (GatherFailure "crash")))
           samplePage None (GatherFailure "crash")).
  reflexivity.
Defined.

(** * Facts about the numbers of the platform

    The primitive operations on [float] are specified against [SpecFloat];
    the facts below are read off that specification. *)

(** The comparison of two numbers is the comparison of their keys. *)
Lemma SFcompare_key f1 f2 :
  f1 <> S754_nan -> f2 <> S754_nan ->
  match SFcompare f1 f2 with
  | Some Lt => keyLt (sortKey f1) (sortKey f2)
  | Some Eq => sortKey f1 = sortKey f2
  | Some Gt => keyLt (sortKey f2) (sortKey f1)
  | None => False
  end.
Proof.
  intros H1 H2.
  destruct f1 as [[]|[]| |[] m1 e1], f2 as [[]|[]| |[] m2 e2];
    try done; cbn; unfold keyLt; cbn; try lia.
  - destruct (Z.compare_spec e1 e2); [|lia..].
    change (Pos.compare_cont Eq m1 m2) with (Pos.compare m1 m2).
    destruct (Pos.compare_spec m1 m2); cbn; [subst; done|lia..].
  - destruct (Z.compare_spec e1 e2); [|lia..].
    change (Pos.compare_cont Eq m1 m2) with (Pos.compare m1 m2).
    destruct (Pos.compare_spec m1 m2); cbn; [subst; done|lia..].
Qed.

Lemma SFcompare_refl f :
  SFcompare f f = match f with S754_nan => None | _ => Some Eq end.
Proof.
  destruct f as [[]|[]| |[] m e]; cbn; try reflexivity;
    by rewrite Z.compare_refl, Pos.compare_cont_refl.
Qed.

Lemma is_nan_spec x : is_nan x = false <-> Prim2SF x <> S754_nan.
Proof.
  unfold is_nan. rewrite FloatAxioms.eqb_spec. unfold SFeqb.
  rewrite SFcompare_refl.
  by destruct (Prim2SF x).
Qed.

Lemma keyLt_irrefl a : ~ keyLt a a.
Proof. unfold keyLt. lia. Qed.

Lemma keyLt_asym a b : keyLt a b -> ~ keyLt b a.
Proof. unfold keyLt. lia. Qed.

Lemma keyLt_trans a b c : keyLt a b -> keyLt b c -> keyLt a c.
Proof. unfold keyLt. lia. Qed.

(** [<] and [<=] on numbers, by their keys. *)
Lemma float_ltb_key x y :
  (x <? y)%float = true <->
  is_nan x = false /\ is_nan y = false /\ keyLt (floatKey x) (floatKey y).
Proof.
  rewrite FloatAxioms.ltb_spec, !is_nan_spec. unfold SFltb, floatKey.
  pose proof (SFcompare_key (Prim2SF x) (Prim2SF y)) as Hkey.
  destruct (Prim2SF x) eqn:Hx, (Prim2SF y) eqn:Hy;
    try (cbn; split; [discriminate|by intros (? & ? & _)]);
    (destruct (SFcompare _ _) as [[]|];
     [| | |destruct Hkey; discriminate];
     specialize (Hkey ltac:(discriminate) ltac:(discriminate));
     (split; [try discriminate; by intros _|intros (_ & _ & Hlt); try done]));
    try (rewrite Hkey in Hlt; by apply keyLt_irrefl in Hlt);
    by apply keyLt_asym in Hlt.
Qed.

Lemma float_leb_key x y :
  (x <=? y)%float = true <->
  is_nan x = false /\ is_nan y = false /\
  (keyLt (floatKey x) (floatKey y) \/ floatKey x = floatKey y).
Proof.
  rewrite FloatAxioms.leb_spec, !is_nan_spec. unfold SFleb, floatKey.
  pose proof (SFcompare_key (Prim2SF x) (Prim2SF y)) as Hkey.
  destruct (Prim2SF x) eqn:Hx, (Prim2SF y) eqn:Hy;
    try (cbn; split; [discriminate|by intros (? & ? & _)]);
    (destruct (SFcompare _ _) as [[]|];
     [| | |destruct Hkey; discriminate];
     specialize (Hkey ltac:(discriminate) ltac:(discriminate));
     (split; [try discriminate; intros _; repeat split; try discriminate; auto
             |intros (_ & _ & [Hlt|Heq]); try done]));
    try (by apply keyLt_asym in Hlt);
    rewrite Heq in Hkey; by apply keyLt_irrefl in Hkey.
Qed.

Lemma float_leb_refl x : is_nan x = false -> (x <=? x)%float = true.
Proof. intros Hx. apply float_leb_key. auto. Qed.

Lemma float_leb_trans x y z :
  (x <=? y)%float = true -> (y <=? z)%float = true -> (x <=? z)%float = true.
Proof.
  rewrite !float_leb_key. intros (Hx & _ & Hxy) (_ & Hz & Hyz).
  split; [done|]. split; [done|].
  destruct Hxy as [Hxy|Hxy], Hyz as [Hyz|Hyz].
  - left. by eapply keyLt_trans.
  - left. by rewrite <- Hyz.
  - left. by rewrite Hxy.
  - right. congruence.
Qed.

Lemma keyLt_total a b : keyLt a b \/ a = b \/ keyLt b a.
Proof.
  destruct a as [[a1 a2] a3], b as [[b1 b2] b3]. unfold keyLt. cbn.
  destruct (Z.lt_total a1 b1) as [?|[->|?]]; [lia| |lia].
  destruct (Z.lt_total a2 b2) as [?|[->|?]]; [lia| |lia].
  destruct (Z.lt_total a3 b3) as [?|[->|?]]; [lia| |lia].
  auto.
Qed.

Lemma float_ltb_false_leb x y :
  is_nan x = false -> is_nan y = false ->
  (x <? y)%float = false -> (y <=? x)%float = true.
Proof.
  intros Hx Hy Hlt. apply float_leb_key. split; [done|]. split; [done|].
  destruct (keyLt_total (floatKey x) (floatKey y)) as [H|[H|H]]; auto.
  exfalso. assert ((x <? y)%float = true) by (apply float_ltb_key; auto). congruence.
Qed.

Lemma float_ltb_leb x y : (x <? y)%float = true -> (x <=? y)%float = true.
Proof. rewrite float_ltb_key, float_leb_key. intros (? & ? & ?). auto. Qed.

Lemma classify_zero_key x :
  classify x = PZero \/ classify x = NZero -> floatKey x = (0, 0, 0)%Z.
Proof.
  rewrite FloatAxioms.classify_spec. unfold floatKey, SF64classify, SFclassify.
  destruct (Prim2SF x) as [[]|[]| |[] m e]; try (intros [|]; discriminate);
    try done; destruct (Z.eqb _ _); intros [|]; discriminate.
Qed.

(** What [Math.max] gives for two numbers. *)
Lemma Math_max_spec value1 value2 :
  is_nan value1 = false -> is_nan value2 = false ->
  is_nan (Math_max value1 value2) = false /\
  (value1 <=? Math_max value1 value2)%float = true /\
  (value2 <=? Math_max value1 value2)%float = true /\
  (Math_max value1 value2 = value1 \/ Math_max value1 value2 = value2).
Proof.
  intros H1 H2. unfold Math_max. rewrite H1, H2. cbn [orb].
  assert (Hzero : classify value2 = PZero -> classify value1 = NZero ->
                  is_nan value2 = false /\
                  (value1 <=? value2)%float = true /\
                  (value2 <=? value2)%float = true /\
                  (value2 = value1 \/ value2 = value2)).
  { intros Hc2 Hc1. split; [done|]. split; [|split; [by apply float_leb_refl|auto]].
    apply float_leb_key. split; [done|]. split; [done|]. right.
    rewrite (classify_zero_key value1), (classify_zero_key value2); auto. }
  assert (Hcmp : is_nan (if (value1 <? value2)%float then value2 else value1)
                   = false /\
                 (value1 <=? if (value1 <? value2)%float then value2 else value1)%float
                   = true /\
                 (value2 <=? if (value1 <? value2)%float then value2 else value1)%float
                   = true /\
                 ((if (value1 <? value2)%float then value2 else value1) = value1 \/
                  (if (value1 <? value2)%float then value2 else value1) = value2)).
  { destruct (value1 <? value2)%float eqn:Hlt.
    - split; [done|]. split; [by apply float_ltb_leb|]. split; [by apply float_leb_refl|auto].
    - split; [done|]. split; [by apply float_leb_refl|].
      split; [by apply float_ltb_false_leb|auto]. }
  destruct (classify value2) eqn:Hc2; try exact Hcmp.
  destruct (classify value1) eqn:Hc1; try exact Hcmp.
  by apply Hzero.
Qed.

Lemma binary_round_aux_signed sx mx ex lx :
  signed sx (binary_round_aux prec emax sx mx ex lx).
Proof.
  unfold binary_round_aux.
  destruct (shr_fexp _ _ _ _ _) as [mrs' e'].
  destruct (shr_fexp _ _ _ _ _) as [mrs'' e''].
  destruct (shr_m mrs''); [constructor| |constructor].
  destruct (Z.leb _ _); constructor.
Qed.

Lemma binary_round_signed sx mx ex :
  signed sx (binary_round prec emax sx mx ex).
Proof.
  unfold binary_round. destruct (shl_align _ _ _) as [mz ez].
  apply binary_round_aux_signed.
Qed.

Lemma signed_true_not_positive r :
  signed true r -> SFltb (S754_zero false) r = false.
Proof. by intros []. Qed.

Lemma SFsub_antisym x y :
  SFltb (S754_zero false) (SF64sub y x) = true ->
  SFltb (S754_zero false) (SF64sub x y) = false.
Proof.
  unfold SF64sub.
  destruct x as [[]|[]| |sx mx ex], y as [[]|[]| |sy my ey];
    try (cbn; congruence); try (destruct sx; cbn; congruence);
    try (destruct sy; cbn; congruence).
  unfold SFsub. rewrite (Z.min_comm ey ex).
  set (ez := Z.min ex ey).
  set (a := cond_Zopp sx (Z.pos (shl_align mx ex ez).1)).
  set (b := cond_Zopp sy (Z.pos (shl_align my ey ez).1)).
  replace (Z.sub a b) with (Z.opp (Z.sub b a)) by lia.
  destruct (Z.sub b a) as [|d|d]; cbn [Z.opp binary_normalize].
  - cbn. congruence.
  - intros _. apply signed_true_not_positive, binary_round_signed.
  - intros Hpos.
    by rewrite signed_true_not_positive in Hpos by apply binary_round_signed.
Qed.

(** The comparator of the audit's sort never ranks each of two numbers
    before the other. *)
Lemma descending_antisym x y :
  (0 <? y - x)%float = true -> (0 <? x - y)%float = false.
Proof.
  rewrite !FloatAxioms.ltb_spec, !FloatAxioms.sub_spec.
  change (Prim2SF 0) with (S754_zero false). apply SFsub_antisym.
Qed.

Lemma iter_pos_invariant {A : Type} (P : A -> Prop) (f : A -> A) :
  (forall x, P x -> P (f x)) -> forall n x, P x -> P (SpecFloat.iter_pos f n x).
Proof.
  intros Hf n. induction n as [n IH|n IH|]; intros x Hx; cbn; auto.
Qed.

Lemma shr_1_nonneg mrs : (0 <= shr_m mrs)%Z -> (0 <= shr_m (shr_1 mrs))%Z.
Proof. destruct mrs as [[|[p|p|]|p] r s]; cbn; lia. Qed.

Lemma shr_fexp_nonneg m e l :
  (0 <= m)%Z -> (0 <= shr_m (shr_fexp prec emax m e l).1)%Z.
Proof.
  intros Hm. unfold shr_fexp, shr.
  assert (H0 : (0 <= shr_m (shr_record_of_loc m l))%Z)
    by (by destruct l as [|[]]).
  destruct (Z.sub _ _) as [|p|p]; cbn [fst]; [done| |done].
  apply (iter_pos_invariant (fun mrs => (0 <= shr_m mrs)%Z));
    [apply shr_1_nonneg|exact H0].
Qed.

Lemma round_nearest_even_nonneg mx lx :
  (0 <= mx)%Z -> (0 <= round_nearest_even mx lx)%Z.
Proof.
  intros Hm. destruct lx as [|[]]; cbn; try lia. destruct (Z.even mx); lia.
Qed.

Lemma binary_round_aux_not_nan sx mx ex lx :
  (0 <= mx)%Z -> binary_round_aux prec emax sx mx ex lx <> S754_nan.
Proof.
  intros Hm. unfold binary_round_aux.
  pose proof (shr_fexp_nonneg mx ex lx Hm) as H1.
  destruct (shr_fexp prec emax mx ex lx) as [mrs' e'].
  pose proof (shr_fexp_nonneg
                (round_nearest_even (shr_m mrs') (loc_of_shr_record mrs'))
                e' loc_Exact (round_nearest_even_nonneg _ _ H1)) as H2.
  destruct (shr_fexp _ _ _ _ _) as [mrs'' e'']. cbn in H2.
  destruct (shr_m mrs''); [done| |lia]. by destruct (Z.leb _ _).
Qed.

Lemma binary_normalize_not_nan m e szero :
  binary_normalize prec emax m e szero <> S754_nan.
Proof.
  destruct m as [|p|p]; cbn; [done| |];
    unfold binary_round; destruct (shl_align _ _ _);
    by apply binary_round_aux_not_nan.
Qed.

Lemma SFdiv_not_nan x sy my ey :
  x <> S754_nan -> SF64div x (S754_finite sy my ey) <> S754_nan.
Proof.
  intros Hx. destruct x as [sx|sx| |sx mx ex]; try done.
  unfold SF64div, SFdiv.
  destruct (SFdiv_core_binary _ _ _ _ _ _) as [[mz ez] lz] eqn:Hcore.
  apply binary_round_aux_not_nan.
  unfold SFdiv_core_binary in Hcore.
  destruct (Z.div_eucl _ _) as [q r] eqn:Hdiv. injection Hcore as <- _ _.
  match type of Hdiv with
  | Z.div_eucl ?a ?b = _ =>
      assert (Ha : (0 <= a)%Z);
      [|pose proof (Z_div_mod a b ltac:(lia)) as Hqr;
        rewrite Hdiv in Hqr; nia]
  end.
  destruct (Z.sub _ _) as [|s|s]; [lia| |lia].
  apply Z.shiftl_nonneg. lia.
Qed.

Lemma SFsub_finite_not_nan sx mx ex y :
  y <> S754_nan -> SF64sub (S754_finite sx mx ex) y <> S754_nan.
Proof.
  intros Hy. destruct y as [sy|sy| |sy my ey]; try done.
  unfold SF64sub, SFsub. apply binary_normalize_not_nan.
Qed.

(** The arithmetic of the score never produces NaN from a number. *)
Lemma score_arithmetic_not_nan x :
  is_nan x = false -> is_nan (1 - x / 500)%float = false.
Proof.
  rewrite !is_nan_spec, FloatAxioms.sub_spec, FloatAxioms.div_spec.
  intros Hx. apply SFsub_finite_not_nan. by apply SFdiv_not_nan.
Qed.

(** ** Rounding keeps a positive number positive *)

Lemma digits2_pos_bounds m :
  (2 ^ (Z.pos (digits2_pos m) - 1) <= Z.pos m < 2 ^ Z.pos (digits2_pos m))%Z.
Proof.
  induction m as [m IH|m IH|]; cbn [digits2_pos]; [| |cbn; lia];
    rewrite Pos2Z.inj_succ;
    replace (Z.succ (Z.pos (digits2_pos m)) - 1)%Z
      with (Z.succ (Z.pos (digits2_pos m) - 1)) by lia;
    rewrite !Z.pow_succ_r by lia; lia.
Qed.

Lemma iter_xO m d : Z.pos (Pos.iter xO m d) = (Z.pos m * 2 ^ Z.pos d)%Z.
Proof.
  induction d as [|d IH] using Pos.peano_ind.
  - cbn. lia.
  - rewrite Pos.iter_succ, Pos2Z.inj_xO, IH, Pos2Z.inj_succ, Z.pow_succ_r by lia.
    lia.
Qed.

Lemma shl_align_spec mx ex ex' :
  (shl_align mx ex ex').2 = Z.min ex ex' /\
  Z.pos (shl_align mx ex ex').1
    = (Z.pos mx * 2 ^ (ex - (shl_align mx ex ex').2))%Z.
Proof.
  unfold shl_align. destruct (Z.sub ex' ex) as [|d|d] eqn:Hd; cbn [fst snd].
  - split; [lia|]. rewrite Z.sub_diag. cbn. lia.
  - split; [lia|]. rewrite Z.sub_diag. cbn. lia.
  - split; [lia|]. rewrite iter_xO. f_equal. f_equal. lia.
Qed.

Lemma shr_1_div2 mrs :
  (0 <= shr_m mrs)%Z -> shr_m (shr_1 mrs) = (shr_m mrs / 2)%Z.
Proof.
  destruct mrs as [[|[p|p|]|p] r s]; cbn [shr_1 shr_m]; intros Hm;
    try lia; try reflexivity.
  - rewrite Pos2Z.inj_xI. apply Z.div_unique with 1%Z; lia.
  - rewrite Pos2Z.inj_xO. apply Z.div_unique with 0%Z; lia.
Qed.

Lemma iter_shr_1 p mrs :
  (0 <= shr_m mrs)%Z ->
  (0 <= shr_m (SpecFloat.iter_pos shr_1 p mrs))%Z /\
  shr_m (SpecFloat.iter_pos shr_1 p mrs) = (shr_m mrs / 2 ^ Z.pos p)%Z.
Proof.
  revert mrs. induction p as [p IH|p IH|]; intros mrs Hm; cbn [SpecFloat.iter_pos].
  - pose proof (shr_1_nonneg mrs Hm) as H1.
    destruct (IH _ H1) as [H2 E2]. destruct (IH _ H2) as [H3 E3].
    split; [done|]. rewrite E3, E2, shr_1_div2 by done.
    rewrite !Z.div_div by lia. f_equal.
    replace (Z.pos p~1) with (1 + Z.pos p + Z.pos p)%Z by lia.
    rewrite !Z.pow_add_r by lia. ring.
  - destruct (IH _ Hm) as [H2 E2]. destruct (IH _ H2) as [H3 E3].
    split; [done|]. rewrite E3, E2, Z.div_div by lia. f_equal.
    replace (Z.pos p~0) with (Z.pos p + Z.pos p)%Z by lia.
    rewrite !Z.pow_add_r by lia. ring.
  - split; [by apply shr_1_nonneg|]. by rewrite shr_1_div2.
Qed.

Lemma shr_fexp_pos m e l :
  (0 < m)%Z -> (emin <= e)%Z ->
  (0 < shr_m (shr_fexp prec emax m e l).1)%Z /\
  (emin <= (shr_fexp prec emax m e l).2)%Z.
Proof.
  intros Hm He. destruct m as [|p|p]; [lia| |lia].
  unfold shr_fexp, shr, fexp, Zdigits2.
  assert (H0 : shr_m (shr_record_of_loc (Z.pos p) l) = Z.pos p)
    by (by destruct l as [|[]]).
  pose proof (digits2_pos_bounds p) as [Hlow _].
  change (SpecFloat.emin prec emax) with (-1074)%Z in *.
  change prec with 53%Z in *.
  destruct (Z.max _ _ - e)%Z as [|q|q] eqn:Hn; cbn [fst snd];
    [rewrite H0; lia| |rewrite H0; lia].
  destruct (iter_shr_1 q (shr_record_of_loc (Z.pos p) l)) as [_ ->];
    [rewrite H0; lia|]. rewrite H0. split; [|lia].
  assert (Hd : (Z.pos (digits2_pos p) - 1 = Z.pos q + 52)%Z) by lia.
  rewrite Hd, Z.pow_add_r in Hlow by lia.
  apply Z.lt_le_trans with (2 ^ 52)%Z; [done|].
  apply Z.div_le_lower_bound; lia.
Qed.

Lemma binary_round_aux_positive mx ex lx :
  (0 < mx)%Z -> (emin <= ex)%Z ->
  SFltb (S754_zero false) (binary_round_aux prec emax false mx ex lx) = true.
Proof.
  intros Hm He. unfold binary_round_aux.
  destruct (shr_fexp_pos mx ex lx Hm He) as [H1 He1].
  destruct (shr_fexp prec emax mx ex lx) as [mrs' e']. cbn [fst snd] in *.
  assert (Hr : (0 < round_nearest_even (shr_m mrs') (loc_of_shr_record mrs'))%Z).
  { destruct (loc_of_shr_record mrs') as [|[]]; cbn; try lia.
    destruct (Z.even _); lia. }
  destruct (shr_fexp_pos _ e' loc_Exact Hr He1) as [H2 _].
  destruct (shr_fexp _ _ _ _ _) as [mrs'' e'']. cbn [fst] in H2.
  destruct (shr_m mrs''); [lia| |lia]. by destruct (Z.leb _ _).
Qed.

Lemma binary_normalize_positive m e :
  (0 < m)%Z -> (emin <= e)%Z ->
  SFltb (S754_zero false) (binary_normalize prec emax m e false) = true.
Proof.
  intros Hm He. destruct m as [|p|p]; [lia| |lia].
  cbn [binary_normalize]. unfold binary_round.
  pose proof (shl_align_spec p e
                (fexp prec emax (Z.pos (digits2_pos p) + e))) as [H2 _].
  destruct (shl_align _ _ _) as [mz ez]. cbn [snd] in H2.
  apply binary_round_aux_positive; [lia|]. subst ez. unfold fexp. lia.
Qed.

(** What [valid_binary] says of a finite number. *)
Lemma valid_finite s m e :
  valid_binary (S754_finite s m e) = true ->
  (emin <= e)%Z /\ (Z.pos m < 2 ^ 53)%Z /\
  ((emin < e)%Z -> (2 ^ 52 <= Z.pos m)%Z).
Proof.
  cbn. unfold bounded, canonical_mantissa, fexp.
  change (SpecFloat.emin prec emax) with (-1074)%Z.
  change prec with 53%Z.
  intros [Hcanon _]%andb_prop. apply Z.eqb_eq in Hcanon.
  pose proof (digits2_pos_bounds m) as [Hlow Hhigh].
  split; [lia|]. split.
  - apply Z.lt_le_trans with (1 := Hhigh). apply Z.pow_le_mono_r; lia.
  - intros He. replace 52%Z with (Z.pos (digits2_pos m) - 1)%Z by lia. done.
Qed.

Lemma SFsub_positive x y :
  valid_binary x = true -> valid_binary y = true ->
  x <> S754_nan -> y <> S754_nan ->
  keyLt (sortKey x) (sortKey y) ->
  SFltb (S754_zero false) (SF64sub y x) = true.
Proof.
  intros Vx Vy Hx Hy. unfold keyLt.
  destruct x as [[]|[]| |sx mx ex], y as [[]|[]| |sy my ey];
    try done; try (cbn; lia); try (destruct sx; cbn; by try lia);
    try (destruct sy; cbn; by try lia).
  intros Hlt. unfold SF64sub, SFsub.
  apply valid_finite in Vx as (Hex & Hmx & Hnx).
  apply valid_finite in Vy as (Hey & Hmy & Hny).
  pose proof (shl_align_spec mx ex (Z.min ey ex)) as [Ex2 Ex1].
  pose proof (shl_align_spec my ey (Z.min ey ex)) as [Ey2 Ey1].
  rewrite Ex2 in Ex1. rewrite Ey2 in Ey1.
  apply binary_normalize_positive; [|lia].
  rewrite Ex1, Ey1.
  destruct (Z.lt_total ex ey) as [Hlt'|[->|Hlt']].
  - rewrite (Z.min_r ey ex), (Z.min_l ex ex), (Z.min_r ey ex), Z.sub_diag
      by lia.
    assert (Hpow : (2 ^ 1 <= 2 ^ (ey - ex))%Z) by (apply Z.pow_le_mono_r; lia).
    destruct sx, sy; cbn in Hlt |- *; lia.
  - rewrite !Z.min_id, !Z.sub_diag. destruct sx, sy; cbn in Hlt |- *; lia.
  - rewrite (Z.min_l ey ex), (Z.min_r ex ey), (Z.min_l ey ey), Z.sub_diag
      by lia.
    assert (Hpow : (2 ^ 1 <= 2 ^ (ex - ey))%Z) by (apply Z.pow_le_mono_r; lia).
    destruct sx, sy; cbn in Hlt |- *; lia.
Qed.

Lemma SFsub_equal x y :
  x <> S754_nan -> y <> S754_nan -> sortKey x = sortKey y ->
  SFltb (S754_zero false) (SF64sub y x) = false.
Proof.
  intros Hx Hy.
  destruct x as [[]|[]| |[] mx ex], y as [[]|[]| |[] my ey];
    try done; cbn [sortKey]; intros [= ];
    repeat match goal with H : Z.opp _ = Z.opp _ |- _ => apply Z.opp_inj in H end;
    subst; unfold SF64sub, SFsub; by rewrite ?Z.sub_diag.
Qed.

(** The comparator of the audit's sort agrees with the order of the
    numbers: it ranks [x] after [y] exactly when [x] is the smaller. *)
Lemma descending_spec x y :
  is_nan x = false -> is_nan y = false ->
  (0 <? y - x)%float = (x <? y)%float.
Proof.
  intros Hx Hy.
  assert (Hpos : forall a b, is_nan a = false -> is_nan b = false ->
                   keyLt (floatKey a) (floatKey b) ->
                   (0 <? b - a)%float = true).
  { intros a b Ha Hb Hlt.
    rewrite FloatAxioms.ltb_spec, FloatAxioms.sub_spec.
    change (Prim2SF 0) with (S754_zero false).
    apply SFsub_positive; try apply Prim2SF_valid; by try apply is_nan_spec. }
  destruct (keyLt_total (floatKey x) (floatKey y)) as [H|[H|H]].
  - rewrite (Hpos x y) by done. symmetry. by apply float_ltb_key.
  - transitivity false.
    + rewrite FloatAxioms.ltb_spec, FloatAxioms.sub_spec.
      change (Prim2SF 0) with (S754_zero false).
      apply SFsub_equal; by try apply is_nan_spec.
    + symmetry. apply not_true_is_false. intros (_ & _ & Hlt)%float_ltb_key.
      rewrite H in Hlt. by apply keyLt_irrefl in Hlt.
  - transitivity false.
    + apply descending_antisym. by apply Hpos.
    + symmetry. apply not_true_is_false. intros (_ & _ & Hlt)%float_ltb_key.
      by apply keyLt_asym in Hlt.
Qed.

(** ** Rounding keeps a number below one below or at one *)

Lemma Zdigits2_below m k :
  (0 <= m)%Z -> (0 <= k)%Z -> (m < 2 ^ k)%Z -> (Zdigits2 m <= k)%Z.
Proof.
  intros Hm Hk Hlt. destruct m as [|p|p]; cbn; [lia| |lia].
  pose proof (digits2_pos_bounds p) as [Hlow _].
  assert (H : (2 ^ (Z.pos (digits2_pos p) - 1) < 2 ^ k)%Z) by lia.
  apply Z.pow_lt_mono_r_iff in H; lia.
Qed.

Lemma shr_fexp_below m e l :
  (0 <= m)%Z -> (e <= -52)%Z -> (m <= 2 ^ (- e))%Z ->
  (0 <= shr_m (shr_fexp prec emax m e l).1)%Z /\
  ((shr_fexp prec emax m e l).2 <= -52)%Z /\
  (shr_m (shr_fexp prec emax m e l).1
     <= 2 ^ (- (shr_fexp prec emax m e l).2))%Z /\
  ((m < 2 ^ (- e))%Z ->
   (shr_m (shr_fexp prec emax m e l).1
      < 2 ^ (- (shr_fexp prec emax m e l).2))%Z).
Proof.
  intros Hm He Hle.
  assert (Hd : (Zdigits2 m <= - e + 1)%Z).
  { apply Zdigits2_below; [done|lia|].
    rewrite Z.pow_add_r by lia. change (2 ^ 1)%Z with 2%Z.
    assert (0 < 2 ^ (- e))%Z by (apply Z.pow_pos_nonneg; lia). lia. }
  unfold shr_fexp, shr, fexp.
  change (SpecFloat.emin prec emax) with (-1074)%Z.
  change prec with 53%Z.
  assert (H0 : shr_m (shr_record_of_loc m l) = m) by (by destruct l as [|[]]).
  destruct (Z.max _ _ - e)%Z as [|q|q] eqn:Hn; cbn [fst snd];
    rewrite ?H0; [by auto| |by auto].
  destruct (iter_shr_1 q (shr_record_of_loc m l)) as [_ ->];
    [rewrite H0; lia|]. rewrite H0 in *.
  assert (Hq : (- e = - (e + Z.pos q) + Z.pos q)%Z) by lia.
  assert (Hpow : (2 ^ (- e) = 2 ^ Z.pos q * 2 ^ (- (e + Z.pos q)))%Z).
  { rewrite Hq at 1. rewrite Z.pow_add_r by lia. lia. }
  assert (H2q : (0 < 2 ^ Z.pos q)%Z) by (apply Z.pow_pos_nonneg; lia).
  split; [apply Z.div_pos; lia|]. split; [lia|]. split.
  - apply Z.div_le_upper_bound; lia.
  - intros Hlt. apply Z.div_lt_upper_bound; lia.
Qed.

Lemma SFleb_key r1 r2 :
  r1 <> S754_nan -> r2 <> S754_nan ->
  keyLt (sortKey r1) (sortKey r2) \/ sortKey r1 = sortKey r2 ->
  SFleb r1 r2 = true.
Proof.
  intros H1 H2 Hle. unfold SFleb.
  pose proof (SFcompare_key r1 r2 H1 H2) as Hkey.
  destruct (SFcompare r1 r2) as [[]|]; try done.
  destruct Hle as [Hlt|Heq].
  - by apply keyLt_asym in Hlt.
  - rewrite Heq in Hkey. by apply keyLt_irrefl in Hkey.
Qed.

Lemma binary_round_aux_below_one mx ex lx :
  (0 <= mx)%Z -> (ex <= -52)%Z -> (mx < 2 ^ (- ex))%Z ->
  SFleb (binary_round_aux prec emax false mx ex lx) SFone = true.
Proof.
  intros Hm He Hlt. unfold binary_round_aux.
  destruct (shr_fexp_below mx ex lx Hm He ltac:(lia)) as (H1 & He1 & _ & Hlt1).
  specialize (Hlt1 Hlt).
  destruct (shr_fexp prec emax mx ex lx) as [mrs' e']. cbn [fst snd] in *.
  set (m'' := round_nearest_even (shr_m mrs') (loc_of_shr_record mrs')).
  assert (Hr : (0 <= m'' <= 2 ^ (- e'))%Z).
  { subst m''. destruct (loc_of_shr_record mrs') as [|[]]; cbn; try lia.
    destruct (Z.even _); lia. }
  destruct (shr_fexp_below m'' e' loc_Exact ltac:(lia) He1 ltac:(lia))
    as (H2 & He2 & Hle2 & _).
  destruct (shr_fexp _ _ _ _ _) as [mrs'' e'']. cbn [fst snd] in *.
  destruct (shr_m mrs'') as [|m|m] eqn:Hm''; [done| |lia].
  change (Z.sub emax prec) with 971%Z.
  destruct (Z.leb_spec e'' 971); [|lia].
  apply SFleb_key; [done|done|].
  unfold keyLt, SFone. cbn [sortKey fst snd].
  destruct (Z.lt_total e'' (-52)) as [?|[->|?]]; [lia| |lia].
  assert (H52 : (2 ^ (- -52) = 4503599627370496)%Z) by reflexivity.
  rewrite H52 in Hle2.
  destruct (Z.lt_total (Z.pos m) 4503599627370496) as [?|[Heq|?]]; [lia| |lia].
  right. by rewrite Heq.
Qed.

Lemma binary_round_below_one m e :
  (e <= -52)%Z -> (Z.pos m < 2 ^ (- e))%Z ->
  SFleb (binary_round prec emax false m e) SFone = true.
Proof.
  intros He Hlt. unfold binary_round.
  pose proof (shl_align_spec m e (fexp prec emax (Z.pos (digits2_pos m) + e)))
    as [H2 H1].
  destruct (shl_align _ _ _) as [mz ez]. cbn [fst snd] in *.
  apply binary_round_aux_below_one; [lia|lia|].
  rewrite H1.
  replace (- ez)%Z with (- e + (e - ez))%Z by lia.
  rewrite Z.pow_add_r by lia.
  apply Z.mul_lt_mono_pos_r; [apply Z.pow_pos_nonneg; lia|done].
Qed.

Lemma signed_true_below_one r :
  signed true r -> r <> S754_nan -> SFleb r SFone = true.
Proof. by intros []. Qed.

Lemma SFsub_one_below_one y :
  valid_binary y = true -> y <> S754_nan ->
  (sortKey y = (0, 0, 0)%Z \/ keyLt (0, 0, 0)%Z (sortKey y)) ->
  SFleb (SF64sub SFone y) SFone = true.
Proof.
  intros Vy Hy Hpos.
  destruct y as [sy|[]| |[] my ey]; try done;
    try (destruct Hpos as [[=]|Hpos]; unfold keyLt in Hpos; cbn in Hpos; lia).
  apply valid_finite in Vy as (Hey & _ & _).
  unfold SF64sub, SFsub, SFone.
  set (ez := Z.min (-52) ey).
  pose proof (shl_align_spec 4503599627370496 (-52) ez) as [E2 E1].
  pose proof (shl_align_spec my ey ez) as [_ Ey1].
  rewrite E2 in E1. unfold ez in E1 at 2. rewrite Z.min_assoc, Z.min_id in E1.
  fold ez in E1.
  cbn [cond_Zopp]. rewrite E1.
  assert (Hone : (Z.pos 4503599627370496 * 2 ^ (-52 - ez) = 2 ^ (- ez))%Z).
  { change (Z.pos 4503599627370496) with (2 ^ 52)%Z.
    rewrite <- Z.pow_add_r by lia. f_equal. lia. }
  rewrite Hone.
  destruct (2 ^ (- ez) - Z.pos (shl_align my ey ez).1)%Z as [|d|d] eqn:Hd;
    cbn [binary_normalize].
  - done.
  - apply binary_round_below_one; lia.
  - apply signed_true_below_one; [apply binary_round_signed|].
    apply (binary_normalize_not_nan (Z.neg d) ez false).
Qed.

Lemma signed_false_nonneg r :
  signed false r -> r <> S754_nan ->
  sortKey r = (0, 0, 0)%Z \/ keyLt (0, 0, 0)%Z (sortKey r).
Proof. intros [] Hr; try done; [by left|right..]; unfold keyLt; cbn; lia. Qed.

Lemma SFdiv_nonneg x my ey :
  x <> S754_nan ->
  sortKey x = (0, 0, 0)%Z \/ keyLt (0, 0, 0)%Z (sortKey x) ->
  sortKey (SF64div x (S754_finite false my ey)) = (0, 0, 0)%Z \/
  keyLt (0, 0, 0)%Z (sortKey (SF64div x (S754_finite false my ey))).
Proof.
  intros Hx Hpos.
  pose proof (SFdiv_not_nan x false my ey Hx) as Hnan.
  destruct x as [sx|sx| |sx mx ex]; [by left| |done|].
  - destruct sx; [|right; unfold keyLt; cbn; lia].
    destruct Hpos as [[=]|Hpos]. unfold keyLt in Hpos. cbn in Hpos. lia.
  - destruct sx.
    { destruct Hpos as [[=]|Hpos]. unfold keyLt in Hpos. cbn in Hpos. lia. }
    apply signed_false_nonneg; [|done].
    unfold SF64div, SFdiv.
    destruct (SFdiv_core_binary _ _ _ _ _ _) as [[mz ez] lz].
    apply binary_round_aux_signed.
Qed.

(** The score of the audit lies between 0 and 1. *)
Lemma score_range maxLatency :
  (0 <=? maxLatency)%float = true ->
  let score := Math_max (1 - maxLatency / 500) 0 in
  is_nan score = false /\
  (0 <=? score)%float = true /\ (score <=? 1)%float = true.
Proof.
  intros Hpos score.
  pose proof Hpos as (_ & Hnan & Hkey)%float_leb_key.
  assert (Hsub : is_nan (1 - maxLatency / 500)%float = false)
    by (by apply score_arithmetic_not_nan).
  assert (Hone : (1 - maxLatency / 500 <=? 1)%float = true).
  { rewrite FloatAxioms.leb_spec, FloatAxioms.sub_spec.
    change (Prim2SF 1) with SFone.
    apply SFsub_one_below_one.
    - apply Prim2SF_valid.
    - rewrite FloatAxioms.div_spec. apply SFdiv_not_nan. by apply is_nan_spec.
    - rewrite FloatAxioms.div_spec.
      apply SFdiv_nonneg; [by apply is_nan_spec|].
      unfold floatKey in Hkey.
      change (sortKey (Prim2SF 0)) with (0, 0, 0)%Z in Hkey.
      destruct Hkey as [Hlt|Heq]; [by right|by left]. }
  destruct (Math_max_spec (1 - maxLatency / 500) 0 Hsub eq_refl)
    as (Hscore & _ & Hzero & Hcase).
  split; [done|]. split; [done|].
  subst score. by destruct Hcase as [->| ->].
Qed.

Lemma float_eqb_key x y :
  (x =? y)%float = true <->
  is_nan x = false /\ is_nan y = false /\ floatKey x = floatKey y.
Proof.
  rewrite FloatAxioms.eqb_spec, !is_nan_spec. unfold SFeqb, floatKey.
  pose proof (SFcompare_key (Prim2SF x) (Prim2SF y)) as Hkey.
  destruct (Prim2SF x) eqn:Hx, (Prim2SF y) eqn:Hy;
    try (cbn; split; [discriminate|by intros (? & ? & _)]);
    (destruct (SFcompare _ _) as [[]|];
     [| | |destruct Hkey; discriminate];
     specialize (Hkey ltac:(discriminate) ltac:(discriminate));
     (split; [try discriminate; by intros _|intros (_ & _ & Heq); try done]));
    rewrite Heq in Hkey; by apply keyLt_irrefl in Hkey.
Qed.

Lemma Math_max_nan_l value1 value2 :
  is_nan value1 = true -> Math_max value1 value2 = nan.
Proof. intros H. unfold Math_max. by rewrite H. Qed.

Lemma Math_max_nan_r value1 value2 :
  is_nan value2 = true -> Math_max value1 value2 = nan.
Proof. intros H. unfold Math_max. by rewrite H, orb_true_r. Qed.

(** * Facts about the sort *)

Lemma insertInOrder_perm {A : Type} (comparefn : A -> A -> float) a sorted :
  insertInOrder comparefn a sorted ≡ₚ a :: sorted.
Proof.
  induction sorted as [|b rest IH]; cbn; [done|].
  destruct (0 <? comparefn a b)%float; [|done].
  rewrite IH. apply Permutation_swap.
Qed.

Lemma Array_sort_cons {A : Type} (comparefn : A -> A -> float) a items :
  Array_sort comparefn (a :: items)
    = insertInOrder comparefn a (Array_sort comparefn items).
Proof. reflexivity. Qed.

Lemma Array_sort_perm {A : Type} (comparefn : A -> A -> float) items :
  Array_sort comparefn items ≡ₚ items.
Proof.
  induction items as [|a items IH]; [done|].
  by rewrite Array_sort_cons, insertInOrder_perm, IH.
Qed.

Section NetworkServerLatencyFacts.
Import NetworkServerLatency.
Context {base : AuditBase}.

Lemma byLatency_after a b :
  timed a -> timed b ->
  (0 <? byLatency a b)%float
    = (serverResponseTime a <? serverResponseTime b)%float.
Proof. intros Ha Hb. by apply descending_spec. Qed.

Lemma insertInOrder_sorted a sorted :
  timed a -> Forall timed sorted ->
  StronglySorted slowerFirst sorted ->
  StronglySorted slowerFirst (insertInOrder byLatency a sorted).
Proof.
  intros Ha Hnum Hsorted.
  induction Hsorted as [|b rest Hrest IH Hb]; cbn [insertInOrder].
  { repeat constructor. }
  apply Forall_cons in Hnum as [Hnb Hnum].
  rewrite byLatency_after by done.
  destruct (serverResponseTime a <? serverResponseTime b)%float eqn:Hlt.
  - constructor; [by apply IH|].
    rewrite insertInOrder_perm. constructor; [|done].
    by apply float_ltb_leb.
  - constructor; [by constructor|].
    assert (Hba : slowerFirst a b) by (by apply float_ltb_false_leb).
    constructor; [done|].
    eapply Forall_impl; [exact Hb|]. intros c Hc.
    unfold slowerFirst in *. by eapply float_leb_trans.
Qed.

Lemma Array_sort_sorted rows :
  Forall timed rows ->
  StronglySorted slowerFirst (Array_sort byLatency rows).
Proof.
  induction 1 as [|a rows Ha Hrows IH]; [constructor|].
  rewrite Array_sort_cons. apply insertInOrder_sorted; [done| |done].
  by rewrite Array_sort_perm.
Qed.

Lemma insertInOrder_ties t a sorted :
  timed a -> Forall timed sorted ->
  filter (hasLatency t) (insertInOrder byLatency a sorted)
    = filter (hasLatency t) (a :: sorted).
Proof.
  intros Ha Hnum.
  induction Hnum as [|b rest Hb Hrest IH]; cbn [insertInOrder]; [done|].
  rewrite byLatency_after by done.
  destruct (serverResponseTime a <? serverResponseTime b)%float eqn:Hlt;
    [|done].
  rewrite (filter_cons _ b), IH, !filter_cons.
  destruct (decide (hasLatency t b)) as [Htb|Htb],
           (decide (hasLatency t a)) as [Hta|Hta]; try done.
  exfalso. unfold hasLatency in Htb, Hta.
  apply Is_true_true, float_eqb_key in Htb as (_ & _ & Htb).
  apply Is_true_true, float_eqb_key in Hta as (_ & _ & Hta).
  apply float_ltb_key in Hlt as (_ & _ & Hlt).
  rewrite Hta, Htb in Hlt. by apply keyLt_irrefl in Hlt.
Qed.

Lemma Array_sort_ties t rows :
  Forall timed rows ->
  filter (hasLatency t) (Array_sort byLatency rows)
    = filter (hasLatency t) rows.
Proof.
  induction 1 as [|a rows Ha Hrows IH]; [done|].
  rewrite Array_sort_cons, insertInOrder_ties;
    [|done|by rewrite Array_sort_perm].
  by rewrite !filter_cons, IH.
Qed.

(** * Facts about the network-server-latency audit *)

Lemma loop_spec entries maxLatency results :
  fold_left loopBody entries (maxLatency, results)
  = (largest (httpRows {| serverResponseTimeByOrigin := entries |})
       maxLatency,
     (results ++ httpRows {| serverResponseTimeByOrigin := entries |})%list).
Proof.
  unfold httpRows, largest. cbn [serverResponseTimeByOrigin].
  revert maxLatency results.
  induction entries as [|[o t] entries IH]; intros maxLatency results.
  { cbn. by rewrite app_nil_r. }
  cbn [fold_left].
  change (loopBody (maxLatency, results) (o, t))
    with (if negb (String.prefix "http" o) then (maxLatency, results)
          else (Math_max t maxLatency,
                (results ++ [{| origin := o; serverResponseTime := t |}])%list)).
  destruct (String.prefix "http" o) eqn:Hp; cbn [negb].
  - rewrite filter_cons_True by (apply Is_true_true; exact Hp).
    rewrite IH, fmap_cons. cbn [fold_left fst snd]. by rewrite <- app_assoc.
  - rewrite filter_cons_False; [apply IH|].
    intros H%Is_true_true. cbn in H. congruence.
Qed.

Lemma audit_resolved artifacts context (computed : Computed) records analysis :
  let devtoolsLog := devtoolsLogs artifacts !! DEFAULT_PASS in
  computed (NetworkRecords_request devtoolsLog context) = Fulfils records ->
  records <> [] ->
  computed (NetworkAnalysis_request devtoolsLog context) = Fulfils analysis ->
  let maxLatency := largest (httpRows analysis) 0 in
  audit artifacts context computed =
  {| requests := [asked (NetworkRecords_request devtoolsLog context)
                    (Fulfils records);
                  asked (NetworkAnalysis_request devtoolsLog context)
                    (Fulfils analysis)];
     product :=
       Resolved {| score := Math_max (1 - maxLatency / 500) 0;
                   notApplicable := None;
                   numericValue := Some maxLatency;
                   numericUnit := Some "millisecond";
                   displayValue := Some (str_ ms [("timeInMs", maxLatency)]);
                   details :=
                     Some (makeTableDetails headings
                             (Array_sort byLatency (httpRows analysis))) |} |}.
Proof.
  intros devtoolsLog Hrecords Hsome Hanalysis maxLatency.
  unfold audit. fold devtoolsLog. rewrite Hrecords.
  rewrite bool_decide_false by (by destruct records).
  rewrite Hanalysis. destruct analysis as [entries].
  cbn [serverResponseTimeByOrigin]. rewrite loop_spec. reflexivity.
Qed.

Lemma largest_number rows maxLatency :
  Forall timed rows ->
  (0 <=? maxLatency)%float = true ->
  (0 <=? largest rows maxLatency)%float = true /\
  (maxLatency <=? largest rows maxLatency)%float = true /\
  Forall (fun row =>
            (serverResponseTime row <=? largest rows maxLatency)%float = true)
         rows /\
  (largest rows maxLatency = maxLatency \/
   exists row, row ∈ rows /\ serverResponseTime row = largest rows maxLatency).
Proof.
  intros Hnum. revert maxLatency.
  induction Hnum as [|a rows Ha Hrows IH]; intros maxLatency Hpos; cbn.
  { split; [done|]. split; [|split; [constructor|by left]].
    apply float_leb_refl. by apply float_leb_key in Hpos as (_ & ? & _). }
  assert (Hm : is_nan maxLatency = false)
    by (by apply float_leb_key in Hpos as (_ & ? & _)).
  destruct (Math_max_spec (serverResponseTime a) maxLatency Ha Hm)
    as (Hnan & Hle1 & Hle2 & Hcase).
  assert (Hpos' : (0 <=? Math_max (serverResponseTime a) maxLatency)%float = true)
    by (by eapply float_leb_trans).
  destruct (IH _ Hpos') as (H0 & Hstep & Hall & Hfrom).
  unfold largest in *. cbn.
  split; [done|]. split; [by eapply float_leb_trans|]. split.
  - constructor; [by eapply float_leb_trans|done].
  - destruct Hfrom as [Heq|(row & Hin & Hrow)].
    + rewrite Heq. destruct Hcase as [->| ->]; [|by left].
      right. exists a. split; [left|done].
    + right. exists row. split; [by right|done].
Qed.

Lemma is_nan_true x : is_nan x = true <-> Prim2SF x = S754_nan.
Proof.
  pose proof (is_nan_spec x) as H. destruct (is_nan x).
  - split; [intros _|done]. destruct (Prim2SF x); try done;
      exfalso; assert (true = false) by (by apply H); discriminate.
  - split; [done|]. intros Hx. by apply H in Hx.
Qed.

Lemma largest_nan rows maxLatency :
  is_nan maxLatency = true \/
  Exists (fun row => is_nan (serverResponseTime row) = true) rows ->
  is_nan (largest rows maxLatency) = true.
Proof.
  revert maxLatency.
  induction rows as [|a rows IH]; intros maxLatency Hnan.
  { destruct Hnan as [Hm|Hex]; [done|by apply Exists_nil in Hex]. }
  unfold largest in *. cbn [fold_left]. apply IH.
  destruct Hnan as [Hm|[Ha|Hex]%Exists_cons].
  - left. by rewrite Math_max_nan_r.
  - left. by rewrite Math_max_nan_l.
  - by right.
Qed.

Lemma score_nan maxLatency :
  is_nan maxLatency = true ->
  is_nan (Math_max (1 - maxLatency / 500) 0) = true.
Proof.
  intros Hm. rewrite Math_max_nan_l; [done|].
  apply is_nan_true. apply is_nan_true in Hm.
  by rewrite FloatAxioms.sub_spec, FloatAxioms.div_spec, Hm.
Qed.

Lemma httpRows_spec analysis row :
  row ∈ httpRows analysis <->
  (origin row, serverResponseTime row) ∈ serverResponseTimeByOrigin analysis /\
  String.prefix "http" (origin row) = true.
Proof.
  unfold httpRows. rewrite list_elem_of_fmap. split.
  - intros ([o t] & -> & [Hp Hin]%list_elem_of_filter). cbn.
    split; [done|]. by apply Is_true_true.
  - intros [Hin Hp]. exists (origin row, serverResponseTime row).
    split; [by destruct row|].
    apply list_elem_of_filter. split; [|done]. by apply Is_true_true.
Qed.

(** X20: without network records the audit does not apply.  It resolves
    with a score of 1 and [notApplicable], sets nothing else, and the network
    analysis is never requested. *)
Theorem latency_audit_without_records artifacts context (computed : Computed) :
  let recordsRequest :=
    NetworkRecords_request (devtoolsLogs artifacts !! DEFAULT_PASS) context in
  computed recordsRequest = Fulfils [] ->
  audit artifacts context computed =
    {| requests := [asked recordsRequest (Fulfils [])];
       product := Resolved {| score := 1; notApplicable := Some true;
                              numericValue := None; numericUnit := None;
                              displayValue := None; details := None |} |}.
Proof.
  intros recordsRequest Hrecords. subst recordsRequest. unfold audit.
  by rewrite Hrecords.
Qed.

(** X21: with records and an analysis, the audit requests the records and
    then the analysis, both for the log of the default pass, and resolves
    with a table that has one row for each entry of the map whose origin
    starts with ['http'], and no other row. *)
Theorem latency_table_lists_http_origins
  artifacts context (computed : Computed) records analysis :
  let devtoolsLog := devtoolsLogs artifacts !! DEFAULT_PASS in
  computed (NetworkRecords_request devtoolsLog context) = Fulfils records ->
  records <> [] ->
  computed (NetworkAnalysis_request devtoolsLog context) = Fulfils analysis ->
  exists p rows,
    audit artifacts context computed =
      {| requests := [asked (NetworkRecords_request devtoolsLog context)
                        (Fulfils records);
                      asked (NetworkAnalysis_request devtoolsLog context)
                        (Fulfils analysis)];
         product := Resolved p |} /\
    details p = Some (makeTableDetails headings rows) /\
    rows ≡ₚ httpRows analysis /\
    forall row,
      row ∈ rows <->
      (origin row, serverResponseTime row)
        ∈ serverResponseTimeByOrigin analysis /\
      String.prefix "http" (origin row) = true.
Proof.
  intros devtoolsLog Hrecords Hsome Hanalysis.
  eexists _, _. split; [by apply audit_resolved|].
  split; [reflexivity|]. split; [apply Array_sort_perm|].
  intros row. by rewrite Array_sort_perm, httpRows_spec.
Qed.

(** X22: when the latencies are numbers, the rows of the table are in
    descending order of latency, and rows with the same latency keep the
    order of the map. *)
Theorem latency_table_slowest_first
  artifacts context (computed : Computed) records analysis :
  let devtoolsLog := devtoolsLogs artifacts !! DEFAULT_PASS in
  computed (NetworkRecords_request devtoolsLog context) = Fulfils records ->
  records <> [] ->
  computed (NetworkAnalysis_request devtoolsLog context) = Fulfils analysis ->
  measured analysis ->
  exists p rows,
    product (audit artifacts context computed) = Resolved p /\
    details p = Some (makeTableDetails headings rows) /\
    StronglySorted slowerFirst rows /\
    forall t, filter (hasLatency t) rows
              = filter (hasLatency t) (httpRows analysis).
Proof.
  intros devtoolsLog Hrecords Hsome Hanalysis Hmeasured.
  eexists _, _.
  rewrite (audit_resolved _ _ _ _ _ Hrecords Hsome Hanalysis).
  split; [reflexivity|]. split; [reflexivity|].
  split; [by apply Array_sort_sorted|].
  intros t. by apply Array_sort_ties.
Qed.

(** X23: when the latencies are numbers, [numericValue] is the largest of
    them and of 0: it is not below 0 nor below the latency of any row, and
    it is 0 or the latency of a row. *)
Theorem latency_numeric_value_is_largest
  artifacts context (computed : Computed) records analysis :
  let devtoolsLog := devtoolsLogs artifacts !! DEFAULT_PASS in
  computed (NetworkRecords_request devtoolsLog context) = Fulfils records ->
  records <> [] ->
  computed (NetworkAnalysis_request devtoolsLog context) = Fulfils analysis ->
  measured analysis ->
  exists p maxLatency,
    product (audit artifacts context computed) = Resolved p /\
    numericValue p = Some maxLatency /\
    numericUnit p = Some "millisecond" /\
    (0 <=? maxLatency)%float = true /\
    Forall (fun row => (serverResponseTime row <=? maxLatency)%float = true)
      (httpRows analysis) /\
    (maxLatency = 0%float \/
     exists row, row ∈ httpRows analysis /\
                 serverResponseTime row = maxLatency).
Proof.
  intros devtoolsLog Hrecords Hsome Hanalysis Hmeasured.
  eexists _, _.
  rewrite (audit_resolved _ _ _ _ _ Hrecords Hsome Hanalysis).
  split; [reflexivity|]. split; [reflexivity|]. split; [reflexivity|].
  destruct (largest_number (httpRows analysis) 0 Hmeasured eq_refl)
    as (Hpos & _ & Hall & Hfrom).
  done.
Qed.

(** X24: when the latencies are numbers, the score is a number between 0
    and 1; with no origin that starts with ['http'] it is 1. *)
Theorem latency_score_in_range
  artifacts context (computed : Computed) records analysis :
  let devtoolsLog := devtoolsLogs artifacts !! DEFAULT_PASS in
  computed (NetworkRecords_request devtoolsLog context) = Fulfils records ->
  records <> [] ->
  computed (NetworkAnalysis_request devtoolsLog context) = Fulfils analysis ->
  measured analysis ->
  exists p,
    product (audit artifacts context computed) = Resolved p /\
    is_nan (score p) = false /\
    (0 <=? score p)%float = true /\
    (score p <=? 1)%float = true /\
    (httpRows analysis = [] -> score p = 1%float).
Proof.
  intros devtoolsLog Hrecords Hsome Hanalysis Hmeasured.
  eexists.
  rewrite (audit_resolved _ _ _ _ _ Hrecords Hsome Hanalysis).
  split; [reflexivity|]. cbn [score].
  destruct (largest_number (httpRows analysis) 0 Hmeasured eq_refl)
    as (Hpos & _).
  destruct (score_range _ Hpos) as (Hnan & Hlow & Hhigh).
  split; [done|]. split; [done|]. split; [done|].
  intros ->. reflexivity.
Qed.

(** X25: a latency that is NaN, at an origin that starts with ['http'],
    makes [numericValue] and the score NaN. *)
Theorem latency_nan_spreads
  artifacts context (computed : Computed) records analysis :
  let devtoolsLog := devtoolsLogs artifacts !! DEFAULT_PASS in
  computed (NetworkRecords_request devtoolsLog context) = Fulfils records ->
  records <> [] ->
  computed (NetworkAnalysis_request devtoolsLog context) = Fulfils analysis ->
  Exists (fun row => is_nan (serverResponseTime row) = true)
    (httpRows analysis) ->
  exists p maxLatency,
    product (audit artifacts context computed) = Resolved p /\
    numericValue p = Some maxLatency /\
    is_nan maxLatency = true /\
    is_nan (score p) = true.
Proof.
  intros devtoolsLog Hrecords Hsome Hanalysis Hnan.
  eexists _, _.
  rewrite (audit_resolved _ _ _ _ _ Hrecords Hsome Hanalysis).
  split; [reflexivity|]. split; [reflexivity|].
  assert (Hm : is_nan (largest (httpRows analysis) 0) = true)
    by (apply largest_nan; by right).
  split; [done|]. by apply score_nan.
Qed.

End NetworkServerLatencyFacts.

Section NetworkServerLatencyExamples.
Import NetworkServerLatency.

Lemma latency_audit_without_records_witness :
  let run := @audit sampleBase loggedArtifacts sampleContext idleComputed in
  length (requests run) = 1 /\
  exists p, product run = Resolved p /\
            score p = 1%float /\ notApplicable p = Some true /\
            details p = None.
Proof.
  cbv zeta.
  rewrite (@latency_audit_without_records sampleBase loggedArtifacts
             sampleContext idleComputed eq_refl).
  split; [reflexivity|]. eexists. by repeat split.
Defined.

Lemma latency_table_lists_http_origins_witness :
  let run := @audit sampleBase loggedArtifacts sampleContext sampleComputed in
  length (serverResponseTimeByOrigin sampleAnalysis) = 4 /\
  exists p rows,
    product run = Resolved p /\
    details p = Some (@makeTableDetails sampleBase headings rows) /\
    length rows = 3 /\
    rows ≡ₚ httpRows sampleAnalysis.
Proof.
  cbv zeta. split; [reflexivity|].
  destruct (@latency_table_lists_http_origins sampleBase loggedArtifacts
              sampleContext sampleComputed _ sampleAnalysis
              eq_refl ltac:(discriminate) eq_refl)
    as (p & rows & Hrun & Hdetails & Hperm & _).
  exists p, rows. split; [by rewrite Hrun|]. split; [exact Hdetails|].
  split; [|exact Hperm]. by rewrite Hperm.
Defined.

Lemma latency_table_slowest_first_witness :
  let run := @audit sampleBase loggedArtifacts sampleContext sampleComputed in
  exists p rows,
    product run = Resolved p /\
    details p = Some (@makeTableDetails sampleBase headings rows) /\
    origin <$> rows = ["http://cdn.example.com"; "https://example.com";
                       "https://fonts.example.com"] /\
    StronglySorted slowerFirst rows.
Proof.
  cbv zeta.
  destruct (@latency_table_slowest_first sampleBase loggedArtifacts
              sampleContext sampleComputed _ sampleAnalysis
              eq_refl ltac:(discriminate) eq_refl ltac:(repeat constructor))
    as (p & rows & Hp & Hdetails & Hsorted & _).
  exists p, rows. split; [exact Hp|]. split; [exact Hdetails|].
  split; [|exact Hsorted].
  vm_compute in Hp. injection Hp as <-.
  cbn in Hdetails. by injection Hdetails as <-.
Defined.

Lemma latency_numeric_value_is_largest_witness :
  let run := @audit sampleBase loggedArtifacts sampleContext sampleComputed in
  exists p,
    product run = Resolved p /\
    numericValue p = Some 300.25%float /\
    Forall (fun row => (serverResponseTime row <=? 300.25)%float = true)
      (httpRows sampleAnalysis).
Proof.
  cbv zeta.
  destruct (@latency_numeric_value_is_largest sampleBase loggedArtifacts
              sampleContext sampleComputed _ sampleAnalysis
              eq_refl ltac:(discriminate) eq_refl ltac:(repeat constructor))
    as (p & maxLatency & Hp & Hvalue & _ & _ & Hall & _).
  assert (Hmax : maxLatency = 300.25%float).
  { vm_compute in Hp. injection Hp as <-. cbn in Hvalue.
    by injection Hvalue as <-. }
  subst maxLatency. by exists p.
Defined.

Lemma latency_score_in_range_witness :
  let run := @audit sampleBase loggedArtifacts sampleContext sampleComputed in
  exists p,
    product run = Resolved p /\
    numericValue p = Some 300.25%float /\
    (0 <=? score p)%float = true /\
    (score p <=? 1)%float = true /\
    (score p <? 0.5)%float = true.
Proof.
  cbv zeta.
  destruct (@latency_score_in_range sampleBase loggedArtifacts
              sampleContext sampleComputed _ sampleAnalysis
              eq_refl ltac:(discriminate) eq_refl ltac:(repeat constructor))
    as (p & Hp & _ & Hlow & Hhigh & _).
  exists p. split; [exact Hp|].
  split; [|split; [exact Hlow|split; [exact Hhigh|]]];
    vm_compute in Hp; by injection Hp as <-.
Defined.

Lemma latency_nan_spreads_witness :
  let run := @audit sampleBase loggedArtifacts sampleContext nanComputed in
  exists p maxLatency,
    product run = Resolved p /\
    numericValue p = Some maxLatency /\
    is_nan maxLatency = true /\
    is_nan (score p) = true.
Proof.
  cbv zeta.
  apply (@latency_nan_spreads sampleBase loggedArtifacts sampleContext
           nanComputed _ nanAnalysis eq_refl ltac:(discriminate) eq_refl).
  right. by left.
Defined.

End NetworkServerLatencyExamples.
